(** * EcoLyon image generators: prompt catalog, dispatch and result sink

    A shallow embedding of [GEN/incity_generator.py] and
    [GEN/lyon_generator.py].  Both programs are desktop panels whose buttons
    start one background thread per image; the thread composes a prompt,
    calls the image service and stores the answer under an output directory.

    Texts that the programs spell out (prompts, file names, messages) are
    [string]s holding the UTF-8 bytes of the Python literal.  The text typed
    in the credential field is a Python [str] on which [strip] is called, so
    it is kept as its sequence of code points. *)

From Stdlib Require Import Strings.Ascii Strings.Byte NArith.
From stdpp Require Import base option list strings pretty gmap.

(** ** Python values *)

(** A [str] as code points, and the whitespace test used by [str.strip]. *)
Definition pystr := list N.

Definition isspace (c : N) : bool :=
  ((9 <=? c) && (c <=? 13) || (28 <=? c) && (c <=? 32)
   || (c =? 133) || (c =? 160) || (c =? 5760)
   || (8192 <=? c) && (c <=? 8202)
   || (c =? 8232) || (c =? 8233) || (c =? 8239) || (c =? 8287)
   || (c =? 12288))%N.

Fixpoint lstrip (s : pystr) : pystr :=
  match s with
  | [] => []
  | c :: s' => if isspace c then lstrip s' else s
  end.

Definition rstrip (s : pystr) : pystr := reverse (lstrip (reverse s)).

Definition strip (s : pystr) : pystr := rstrip (lstrip s).

(** Truth value of a [str], of [None] and of a list. *)
Definition truthy {A} (l : list A) : bool :=
  match l with [] => false | _ => true end.

Definition str_truthy (s : string) : bool :=
  match s with EmptyString => false | _ => true end.

Definition opt_truthy (o : option string) : bool :=
  match o with None => false | Some s => str_truthy s end.

Definition bytes := list byte.

(** An exception is kept as the text [str(e)] that the handlers print. *)
Inductive result (A : Type) : Type :=
  | Ok (a : A)
  | Raise (e : string).
Arguments Ok {A} a.
Arguments Raise {A} e.

(** ** Substrings *)

Fixpoint infix (c s : string) : bool :=
  String.prefix c s ||
  match s with
  | EmptyString => false
  | String _ s' => infix c s'
  end.

Definition includes (c s : string) : Prop := ∃ a b, s = a +:+ c +:+ b.

(** ** Paths ([os.path.join] on POSIX) *)

Definition startswith_sep (b : string) : bool :=
  match b with
  | String c _ => Ascii.eqb c "/"
  | EmptyString => false
  end.

Fixpoint endswith_sep (a : string) : bool :=
  match a with
  | EmptyString => false
  | String c EmptyString => Ascii.eqb c "/"
  | String _ a' => endswith_sep a'
  end.

Definition os_path_join (a b : string) : string :=
  if startswith_sep b then b
  else if negb (str_truthy a) || endswith_sep a then a +:+ b
  else a +:+ "/" +:+ b.

(** ** The file system seen by a task

    A disk of directories and regular files, keyed by the text of the path
    as the programs build it: the working directory, the name of the output
    directory and a file name.  The text is not resolved ([.], [..] and
    repeated separators are not interpreted) and the directory above a file
    is not looked up, so the disk stands for the real one on paths made of
    plain names only. *)

Inductive node : Type :=
  | Dir
  | File (content : bytes).

Record filesystem : Type := mkFs {
  cwd : string;                 (* os.getcwd() *)
  nodes : gmap string node;
  read_only : bool              (* new entries are refused *)
}.

Definition with_nodes (m : gmap string node) (d : filesystem) : filesystem :=
  {| cwd := cwd d; nodes := m; read_only := read_only d |}.

(** [os.makedirs(p, exist_ok=True)] below an existing directory. *)
Definition makedirs (p : string) (d : filesystem) : result filesystem :=
  match nodes d !! p with
  | Some Dir => Ok d
  | Some (File _) => Raise ("[Errno 17] File exists: '" +:+ p +:+ "'")
  | None =>
      if read_only d then Raise ("[Errno 30] Read-only file system: '" +:+ p +:+ "'")
      else Ok (with_nodes (<[p := Dir]> (nodes d)) d)
  end.

(** [open(p, "wb")]: the file is created, or emptied when it is there; a
    directory in its place and a file system that takes no writes make it
    raise, and then nothing has changed. *)
Definition open_wb (p : string) (d : filesystem) : result filesystem :=
  match nodes d !! p with
  | Some Dir => Raise ("[Errno 21] Is a directory: '" +:+ p +:+ "'")
  | _ =>
      if read_only d then Raise ("[Errno 30] Read-only file system: '" +:+ p +:+ "'")
      else Ok (with_nodes (<[p := File []]> (nodes d)) d)
  end.

(** [f.write(data)] on the file just opened, and its closing.  Bytes handed
    to an open file are taken to reach it: a device that fills up is not
    part of this disk. *)
Definition file_write (p : string) (data : bytes) (d : filesystem) : filesystem :=
  with_nodes (<[p := File data]> (nodes d)) d.

(** [with open(p, "wb") as f: f.write(data)] *)
Definition write_bytes (p : string) (data : bytes) (d : filesystem) : result filesystem :=
  match open_wb p d with
  | Ok d' => Ok (file_write p data d')
  | Raise e => Raise e
  end.

Definition is_dir (p : string) (d : filesystem) : Prop := nodes d !! p = Some Dir.

Definition writable (p : string) (d : filesystem) : Prop :=
  nodes d !! p ≠ Some Dir ∧ read_only d = false.

(** ** The image service (google-genai) and the panel *)

(** [self.pil_image]: the decoded reference picture, in RGB. *)
Record Image : Type := { width : N; height : N; pixels : bytes }.

(** [part.inline_data.data] is a byte sequence or, in some versions of the
    library, base64 text.  A blob without data ([None]) is not represented:
    for it the programs open the file and fail in [f.write]. *)
Inductive payload : Type :=
  | DataStr (text : string)
  | DataBytes (raw : bytes).

Record Blob : Type := { data : payload }.

(** What [part.as_image()] followed by [img.save(path)] does: the attribute
    may be missing, the calls may raise, or an image is returned whose [save]
    stores [image_bytes] at the path. *)
Inductive accessor : Type :=
  | NoAccessor
  | AccessorRaises
  | AccessorImage (image_bytes : bytes).

Record part : Type := { inline_data : option Blob; as_image : accessor }.

Record response : Type := { parts : option (list part) }.

(** The arguments of [client.models.generate_content]. *)
Record request : Type := {
  model : string;
  contents : string * option Image;
  response_modalities : list string;
  aspect_ratio : string;
  image_size : string
}.

(** The collaborators outside the repository: the client constructor, the
    generation call and [base64.b64decode]; each may raise. *)
Record external : Type := {
  client : Type;
  Client : pystr → result client;
  generate_content : client → request → result response;
  b64decode : string → result bytes
}.

(** The panel ([self]) together with what its methods act upon. *)
Record state : Type := mkState {
  reference_image_path : option string;
  pil_image : option Image;
  api_entry : pystr;                     (* text of the credential field *)
  log_box : list string;                 (* texts inserted at the end *)
  dialogs : list (string * string);      (* messagebox.showerror(title, message) *)
  threads : list (string * string);      (* Thread(target=generate_task, args=...).start() *)
  disk : filesystem;
  calls : list request;                  (* requests handed to generate_content *)
  console : list response                (* print(response) *)
}.

Definition with_log (l : list string) (s : state) : state :=
  mkState (reference_image_path s) (pil_image s) (api_entry s) l
          (dialogs s) (threads s) (disk s) (calls s) (console s).
Definition with_dialogs (l : list (string * string)) (s : state) : state :=
  mkState (reference_image_path s) (pil_image s) (api_entry s) (log_box s)
          l (threads s) (disk s) (calls s) (console s).
Definition with_threads (l : list (string * string)) (s : state) : state :=
  mkState (reference_image_path s) (pil_image s) (api_entry s) (log_box s)
          (dialogs s) l (disk s) (calls s) (console s).
Definition with_disk (d : filesystem) (s : state) : state :=
  mkState (reference_image_path s) (pil_image s) (api_entry s) (log_box s)
          (dialogs s) (threads s) d (calls s) (console s).
Definition with_calls (l : list request) (s : state) : state :=
  mkState (reference_image_path s) (pil_image s) (api_entry s) (log_box s)
          (dialogs s) (threads s) (disk s) l (console s).
Definition with_console (l : list response) (s : state) : state :=
  mkState (reference_image_path s) (pil_image s) (api_entry s) (log_box s)
          (dialogs s) (threads s) (disk s) (calls s) l.
Definition with_api_entry (k : pystr) (s : state) : state :=
  mkState (reference_image_path s) (pil_image s) k (log_box s)
          (dialogs s) (threads s) (disk s) (calls s) (console s).

(** ** Commands: state passing with exceptions *)

Definition M (A : Type) : Type := state → result A * state.

Global Instance M_ret : MRet M := λ A a s, (Ok a, s).
Global Instance M_bind : MBind M := λ A B f m s,
  match m s with
  | (Ok a, s') => f a s'
  | (Raise e, s') => (Raise e, s')
  end.

Definition raise {A} (e : string) : M A := λ s, (Raise e, s).

(** [try: body  except Exception as e: handler(e)]; what the body did before
    raising stays done. *)
Definition try_except {A} (body : M A) (handler : string → M A) : M A := λ s,
  match body s with
  | (Ok a, s') => (Ok a, s')
  | (Raise e, s') => handler e s'
  end.

Definition gets {A} (f : state → A) : M A := λ s, (Ok (f s), s).

Definition lift {A} (r : result A) : M A := λ s, (r, s).

Fixpoint for_each {A} (l : list A) (body : A → M unit) : M unit :=
  match l with
  | [] => mret tt
  | x :: l' => body x ;; for_each l' body
  end.

Definition newline : string := String "010" EmptyString.

(** [log]: the same method in both programs. *)
Definition log (message : string) : M unit := λ s,
  (Ok tt, with_log (log_box s ++ ["> " +:+ message +:+ newline]) s).

Definition showerror (title message : string) : M unit := λ s,
  (Ok tt, with_dialogs (dialogs s ++ [(title, message)]) s).

Definition start_thread (filename prompt : string) : M unit := λ s,
  (Ok tt, with_threads (threads s ++ [(filename, prompt)]) s).

Definition print (r : response) : M unit := λ s,
  (Ok tt, with_console (console s ++ [r]) s).

Definition os_makedirs (p : string) : M unit := λ s,
  match makedirs p (disk s) with
  | Ok d => (Ok tt, with_disk d s)
  | Raise e => (Raise e, s)
  end.

Definition open_write (p : string) (content : bytes) : M unit := λ s,
  match write_bytes p content (disk s) with
  | Ok d => (Ok tt, with_disk d s)
  | Raise e => (Raise e, s)
  end.

(** ** Storing the answer: the loop over [response.parts]

    The loop is the same text in both programs. *)

Inductive flow : Type := Next | Break.

Section Sink.
Context (ext : external).

(** [if hasattr(part, "as_image"): part.as_image().save(final_path)]; the
    result tells whether the image was saved.  What is raised here is
    swallowed by the bare [except] around it. *)
Definition as_image_save (final_path : string) (p : part) : M bool :=
  match as_image p with
  | NoAccessor => mret false
  | AccessorRaises => raise "as_image"
  | AccessorImage b => open_write final_path b ;; mret true
  end.

(** [img_data]: text is decoded, bytes are taken as they are. *)
Definition img_data (img_bytes : payload) : result bytes :=
  match img_bytes with
  | DataStr t => b64decode ext t
  | DataBytes b => Ok b
  end.

(** One turn of [for part in response.parts]; the result is the new
    [image_saved] and whether [break] was reached. *)
Definition save_part (final_path : string) (p : part) (image_saved : bool)
  : M (bool * flow) :=
  match inline_data p with
  | None => mret (image_saved, Next)
  | Some blob =>
      let img_bytes := data blob in
      saved ← try_except (as_image_save final_path p) (λ _, mret false);
      if (saved : bool) then mret (true, Break)
      else if negb image_saved then
        img_data ← lift (img_data img_bytes);
        open_write final_path img_data ;;
        mret (true, Next)
      else mret (image_saved, Next)
  end.

Fixpoint save_parts (final_path : string) (ps : list part) (image_saved : bool)
  : M bool :=
  match ps with
  | [] => mret image_saved
  | p :: ps' =>
      r ← save_part final_path p image_saved;
      match r.2 with
      | Break => mret r.1
      | Next => save_parts final_path ps' r.1
      end
  end.

(** [if response.parts: for part in response.parts: ...] *)
Definition save_response (final_path : string) (r : response) : M bool :=
  match parts r with
  | Some ps => save_parts final_path ps false
  | None => mret false
  end.

Definition call_generate_content (c : client ext) (rq : request) : M response := λ s,
  (generate_content ext c rq, with_calls (calls s ++ [rq]) s).
End Sink.

(** ** Loading the reference picture

    What [load_image] meets outside the repository: the file dialog (it
    gives the empty text when cancelled), [Image.open(...).convert('RGB')]
    and the making and showing of the preview; each may raise. *)
Record desktop : Type := {
  askopenfilename : result string;
  image_open : string → result Image;
  show_preview : Image → result unit
}.

Definition with_reference_image_path (o : option string) (s : state) : state :=
  mkState o (pil_image s) (api_entry s) (log_box s)
          (dialogs s) (threads s) (disk s) (calls s) (console s).
Definition with_pil_image (o : option Image) (s : state) : state :=
  mkState (reference_image_path s) o (api_entry s) (log_box s)
          (dialogs s) (threads s) (disk s) (calls s) (console s).

Definition set_reference_image_path (o : option string) : M unit := λ s,
  (Ok tt, with_reference_image_path o s).

Definition set_pil_image (o : option Image) : M unit := λ s,
  (Ok tt, with_pil_image o s).

(** [os.path.basename] on POSIX: what follows the last [/]. *)
Fixpoint has_sep (p : string) : bool :=
  match p with
  | EmptyString => false
  | String c p' => Ascii.eqb c "/" || has_sep p'
  end.

Fixpoint basename (p : string) : string :=
  match p with
  | EmptyString => EmptyString
  | String c p' =>
      if has_sep p' then basename p'
      else if Ascii.eqb c "/" then p' else p
  end.

(** * [incity_generator.py] *)

Module Incity.

(** The prompt built in [generate_task] around [prompt_details]. *)
Definition opening : string :=
  "Using the provided image of the Incity tower in Lyon, modify ONLY the atmosphere and lighting. ".

Definition preservation : list string := [
  "CRITICAL: Keep the EXACT same tower geometry, proportions, camera angle, and claymorphism 3D style. ";
  "The tower structure, windows pattern, and architectural details must remain IDENTICAL. ";
  "Only change: sky color, lighting direction, weather effects, and LED colors on the tower facade."
].

Definition base_prompt (prompt_details : string) : string :=
  "Using the provided image of the Incity tower in Lyon, modify ONLY the atmosphere and lighting. " +:+
  (prompt_details +:+ ". ") +:+
  "CRITICAL: Keep the EXACT same tower geometry, proportions, camera angle, and claymorphism 3D style. " +:+
  "The tower structure, windows pattern, and architectural details must remain IDENTICAL. " +:+
  "Only change: sky color, lighting direction, weather effects, and LED colors on the tower facade.".

Definition output_dir (d : filesystem) : string := os_path_join (cwd d) "output_incity".

Section Task.
Context (ext : external).

(** [generate_task]: the body of the background thread. *)
Definition generate_task (filename prompt_details : string) : M unit :=
  key ← gets api_entry;
  let api_key := strip key in
  match Client ext api_key with
  | Raise e => log ("Erreur Client: " +:+ e)
  | Ok client =>
      log ("Génération: " +:+ filename +:+ "...") ;;
      output_dir ← gets (λ s, output_dir (disk s));
      os_makedirs output_dir ;;
      let final_path := os_path_join output_dir filename in
      try_except
        (image ← gets pil_image;
         response ← call_generate_content ext client
           {| model := "gemini-3-pro-image-preview";
              contents := (base_prompt prompt_details, image);
              response_modalities := ["IMAGE"];
              aspect_ratio := "1:1";
              image_size := "2K" |};
         image_saved ← save_response ext final_path response;
         if (image_saved : bool) then log ("OK: " +:+ filename)
         else (log ("Pas d'image retournée pour " +:+ filename) ;;
               print response))
        (λ e, log ("ERREUR: " +:+ e))
  end.
End Task.

Definition trigger_generation (filename prompt_add : string) : M unit :=
  path ← gets reference_image_path;
  if negb (opt_truthy path) then showerror "Erreur" "Chargez l'image d'abord !" else
  key ← gets api_entry;
  if negb (truthy (strip key)) then showerror "Erreur" "Clé API manquante !" else
  start_thread filename prompt_add.

(** ** The buttons of the panel *)

Record button : Type := add_btn {
  btn_text : string;
  btn_filename : string;
  btn_prompt : string;
  btn_color : string
}.

(** The command of a button made by [add_btn]. *)
Definition click (b : button) : M unit :=
  trigger_generation (btn_filename b) (btn_prompt b).

(** [create_buttons], group A: seven [add_btn] calls. *)
Definition weather_day_buttons : list button := [
  add_btn "Golden Hour" "incity_clear_golden.png"
    ("Golden hour lighting, warm orange and pink sunset sky, " +:+
    "soft golden light reflecting on the tower glass facade, " +:+
    "dramatic long shadows, romantic warm atmosphere, " +:+
    "the tower lit by beautiful sunset colors")
    "#F97316";
  add_btn "Jour Ensoleillé" "incity_clear_day.png"
    ("Bright sunny midday, clear vivid blue sky, " +:+
    "strong direct sunlight, sharp shadows on the tower, " +:+
    "bright cheerful atmosphere, summer vibes, " +:+
    "the glass facade reflecting the blue sky")
    "#3B82F6";
  add_btn "Partiellement Nuageux" "incity_partly_cloudy_day.png"
    ("Partly cloudy sky, mix of blue sky and white fluffy clouds, " +:+
    "sun visible between clouds, dynamic lighting with soft shadows, " +:+
    "pleasant weather, some clouds drifting across the sky, " +:+
    "the tower with alternating sun and cloud shadows")
    "#60A5FA";
  add_btn "Nuageux" "incity_cloudy_day.png"
    ("Overcast grey sky, flat diffused lighting, " +:+
    "no direct shadows, soft grey clouds covering the sky, " +:+
    "muted colors, typical Lyon grey day atmosphere, " +:+
    "the tower under cloudy weather")
    "#6B7280";
  add_btn "Pluie" "incity_rain_day.png"
    ("Rainy weather, dark grey stormy clouds, " +:+
    "visible rain drops falling, wet reflections on surfaces, " +:+
    "puddles on the ground, moody rainy atmosphere, " +:+
    "the tower during rainfall with glistening wet facade")
    "#1E40AF";
  add_btn "Neige" "incity_snow_day.png"
    ("Snowy winter day, white overcast sky, " +:+
    "snow falling gently, snow accumulation on surfaces, " +:+
    "cold blue-white atmosphere, winter wonderland, " +:+
    "the tower covered with snow on ledges")
    "#94A3B8";
  add_btn "Orage" "incity_storm_day.png"
    ("Dramatic thunderstorm, very dark ominous clouds, " +:+
    "lightning bolt visible in the sky, intense atmosphere, " +:+
    "dramatic contrast between dark sky and occasional light, " +:+
    "the tower during a powerful storm")
    "#4C1D95"
].

(** [create_buttons], group B: a table and a loop of [add_btn]. *)
Definition easter_day_buttons : list button :=
  let easter_eggs_day := [
    ("Fête des Lumières",
     "incity_fete_lumieres_day.png",
     "Early december day, pale winter sunlight, " +:+
     "sky with subtle purple and blue gradient hues, " +:+
     "the tower with faint colorful LED lights visible on facade even in daylight, " +:+
     "magical anticipation atmosphere, crisp cold air feeling",
     "#7B68EE");
    ("Noël",
     "incity_noel_day.png",
     "Christmas day, soft golden winter light, light snow falling, " +:+
     "sky with warm peachy pink winter clouds, " +:+
     "the tower with subtle green and red LED lights glowing softly on facade, " +:+
     "cozy magical Christmas morning atmosphere",
     "#228B22");
    ("Nouvel An",
     "incity_nouvel_an_day.png",
     "New Year's day morning, bright crisp winter light, " +:+
     "sky with golden and champagne colored clouds, " +:+
     "the tower with faint golden sparkle LED lights on facade, " +:+
     "fresh hopeful new beginning atmosphere",
     "#FFD700");
    ("14 Juillet",
     "incity_14_juillet_day.png",
     "Bastille Day, bright summer sun, " +:+
     "vivid blue sky with subtle white clouds forming tricolor effect, " +:+
     "the tower with faint blue white red LED accent lights on facade, " +:+
     "patriotic celebratory summer atmosphere",
     "#0055A4");
    ("Halloween",
     "incity_halloween_day.png",
     "Halloween day, dramatic orange and purple sunset sky, " +:+
     "moody clouds with eerie autumn colors, " +:+
     "the tower with faint orange and purple LED lights glowing on facade, " +:+
     "mysterious spooky but fun atmosphere",
     "#FF7518");
    ("Saint-Valentin",
     "incity_saint_valentin_day.png",
     "Valentine's day, soft romantic pink golden hour light, " +:+
     "sky with delicate pink and rose colored clouds, " +:+
     "the tower with subtle pink heart-shaped LED patterns glowing softly on facade, " +:+
     "romantic dreamy love atmosphere",
     "#FF69B4")
  ] in
  map (λ '(event_name, filename, prompt, color), add_btn event_name filename prompt color)
      easter_eggs_day.

(** [create_buttons], group C: a table and a loop of [add_btn]. *)
Definition easter_night_buttons : list button :=
  let easter_eggs := [
    ("Fête des Lumières",
     "incity_fete_lumieres_night.png",
     "Night scene, dark blue sky with stars, " +:+
     "the Incity tower displaying SPECTACULAR COLORFUL LED LIGHT SHOW, " +:+
     "animated rainbow colors flowing on the facade, purple blue pink lights, " +:+
     "artistic light projections, Lyon Festival of Lights celebration, " +:+
     "magical luminous atmosphere, the tower as a beacon of colored lights",
     "#8B5CF6");
    ("Noël",
     "incity_noel_night.png",
     "Christmas night, dark starry sky, light snow falling, " +:+
     "the Incity tower displaying FESTIVE RED AND GREEN LED LIGHTS, " +:+
     "Christmas tree pattern made of green LEDs, red accents, " +:+
     "warm golden fairy lights, holiday spirit, " +:+
     "magical cozy Christmas atmosphere on the tower",
     "#DC2626");
    ("Nouvel An",
     "incity_nouvel_an_night.png",
     "New Year's Eve night, fireworks exploding in the sky, " +:+
     "the Incity tower displaying GOLDEN AND WHITE SPARKLING LED ANIMATION, " +:+
     "shimmering golden lights cascading down the facade, " +:+
     "champagne gold and silver sparkles, celebratory atmosphere, " +:+
     "the tower glowing with festive golden light",
     "#FBBF24");
    ("14 Juillet",
     "incity_14_juillet_night.png",
     "Bastille Day night, fireworks in the background, " +:+
     "the Incity tower displaying FRENCH FLAG COLORS in LED lights, " +:+
     "blue white red vertical stripes illuminating the facade, " +:+
     "patriotic tricolor lighting, national celebration, " +:+
     "the tower proudly showing bleu blanc rouge",
     "#1D4ED8");
    ("Halloween",
     "incity_halloween_night.png",
     "Halloween night, full moon visible, spooky atmosphere, " +:+
     "the Incity tower displaying ORANGE AND PURPLE LED LIGHTS, " +:+
     "jack-o-lantern face pattern in orange LEDs, purple accents, " +:+
     "eerie glow, bats silhouettes near the tower, " +:+
     "spooky but fun Halloween lighting",
     "#EA580C");
    ("Saint-Valentin",
     "incity_saint_valentin_night.png",
     "Valentine's night, romantic starry sky, " +:+
     "the Incity tower displaying PINK AND RED HEART-SHAPED LED PATTERNS, " +:+
     "multiple hearts made of pink LEDs flowing up the facade, " +:+
     "romantic rose-colored glow, love atmosphere, " +:+
     "the tower as a symbol of love with heart lights",
     "#DB2777")
  ] in
  map (λ '(event_name, filename, prompt, color), add_btn event_name filename prompt color)
      easter_eggs.

(** [create_buttons], group D: a base text, a table and a loop. *)
Definition night_buttons : list button :=
  let night_base :=
    "Night scene, dark blue night sky with soft 3D claymorphism clouds, " +:+
    "crescent moon visible in the sky, " +:+
    "the Incity tower with its rectangular top section displaying HORIZONTAL LED LIGHT LINES, " +:+
    "the cylindrical lower section with warm orange lit windows, " +:+
    "calm peaceful night atmosphere" in
  let night_colors := [
    ("Cyan (Bon)", "incity_night_cyan.png", "#50F0E6", "bright cyan turquoise");
    ("Vert (Moyen)", "incity_night_green.png", "#50CCAA", "mint green teal");
    ("Jaune (Dégradé)", "incity_night_yellow.png", "#F0E641", "bright yellow");
    ("Rouge (Mauvais)", "incity_night_red.png", "#E63A52", "vivid red coral");
    ("Violet (Très Mauvais)", "incity_night_purple.png", "#872181", "deep purple magenta")
  ] in
  map (λ '(color_name, filename, btn_color, led_color),
         let prompt := night_base +:+ ", the LED lines glowing in " +:+ led_color +:+ " color" in
         add_btn color_name filename prompt btn_color)
      night_colors.

(** [create_buttons], group E: a base text, a table and a loop. *)
Definition fullmoon_buttons : list button :=
  let fullmoon_base :=
    "Night scene, dark blue night sky with soft 3D claymorphism clouds, " +:+
    "LARGE BRIGHT FULL MOON prominently visible in the sky casting silver moonlight, " +:+
    "the Incity tower with its rectangular top section displaying HORIZONTAL LED LIGHT LINES, " +:+
    "the cylindrical lower section with warm orange lit windows, " +:+
    "magical mystical full moon night atmosphere, moon reflecting on tower surface" in
  let fullmoon_colors := [
    ("Cyan (Bon)", "incity_fullmoon_cyan.png", "#50F0E6", "bright cyan turquoise");
    ("Vert (Moyen)", "incity_fullmoon_green.png", "#50CCAA", "mint green teal");
    ("Jaune (Dégradé)", "incity_fullmoon_yellow.png", "#F0E641", "bright yellow");
    ("Rouge (Mauvais)", "incity_fullmoon_red.png", "#E63A52", "vivid red coral");
    ("Violet (Très Mauvais)", "incity_fullmoon_purple.png", "#872181", "deep purple magenta")
  ] in
  map (λ '(color_name, filename, btn_color, led_color),
         let prompt := fullmoon_base +:+ ", the LED lines glowing in " +:+ led_color +:+ " color" in
         add_btn color_name filename prompt btn_color)
      fullmoon_colors.

Definition create_buttons : list (string * list button) := [
  ("A. MÉTÉO JOUR (6 variations)", weather_day_buttons);
  ("B. EASTER EGGS - JOUR (6 événements)", easter_day_buttons);
  ("C. EASTER EGGS - NUIT AVEC LED (6 événements)", easter_night_buttons);
  ("D. NUIT - LED Qualité Air (5 couleurs)", night_buttons);
  ("E. PLEINE LUNE - LED Qualité Air (5 couleurs)", fullmoon_buttons)
].

(** The task a button stands for: the arguments its command passes on. *)
Definition task_of (b : button) : string * string := (btn_filename b, btn_prompt b).

Definition catalog : list (string * string) :=
  map task_of (concat (map snd create_buttons)).

(** ** Grouped generation *)

Definition day_configs : list (string * string) :=
  [
    ("incity_clear_golden.png",
     "Golden hour lighting, warm orange and pink sunset sky, soft golden light reflecting on the tower glass facade, dramatic long shadows, romantic warm atmosphere, the tower lit by beautiful sunset colors");
    ("incity_clear_day.png",
     "Bright sunny midday, clear vivid blue sky, strong direct sunlight, sharp shadows on the tower, bright cheerful atmosphere, summer vibes, the glass facade reflecting the blue sky");
    ("incity_partly_cloudy_day.png",
     "Partly cloudy sky, mix of blue sky and white fluffy clouds, sun visible between clouds, dynamic lighting with soft shadows, pleasant weather, some clouds drifting across the sky, the tower with alternating sun and cloud shadows");
    ("incity_cloudy_day.png",
     "Overcast grey sky, flat diffused lighting, no direct shadows, soft grey clouds covering the sky, muted colors, typical Lyon grey day atmosphere, the tower under cloudy weather");
    ("incity_rain_day.png",
     "Rainy weather, dark grey stormy clouds, visible rain drops falling, wet reflections on surfaces, puddles on the ground, moody rainy atmosphere, the tower during rainfall with glistening wet facade");
    ("incity_snow_day.png",
     "Snowy winter day, white overcast sky, snow falling gently, snow accumulation on surfaces, cold blue-white atmosphere, winter wonderland, the tower covered with snow on ledges");
    ("incity_storm_day.png",
     "Dramatic thunderstorm, very dark ominous clouds, lightning bolt visible in the sky, intense atmosphere, dramatic contrast between dark sky and occasional light, the tower during a powerful storm")
  ].

Definition generate_all_day : M unit :=
  path ← gets reference_image_path;
  if negb (opt_truthy path) then showerror "Erreur" "Chargez l'image d'abord !" else
  key ← gets api_entry;
  if negb (truthy (strip key)) then showerror "Erreur" "Clé API manquante !" else
  log "Génération batch MÉTÉO JOUR (7 images)..." ;;
  for_each day_configs (λ '(filename, prompt), start_thread filename prompt).

Definition easter_day_configs : list (string * string) :=
  [
    ("incity_fete_lumieres_day.png",
     "Early december day, pale winter sunlight, sky with subtle purple and blue gradient hues, the tower with faint colorful LED lights visible on facade even in daylight, magical anticipation atmosphere, crisp cold air feeling");
    ("incity_noel_day.png",
     "Christmas day, soft golden winter light, light snow falling, sky with warm peachy pink winter clouds, the tower with subtle green and red LED lights glowing softly on facade, cozy magical Christmas morning atmosphere");
    ("incity_nouvel_an_day.png",
     "New Year's day morning, bright crisp winter light, sky with golden and champagne colored clouds, the tower with faint golden sparkle LED lights on facade, fresh hopeful new beginning atmosphere");
    ("incity_14_juillet_day.png",
     "Bastille Day, bright summer sun, vivid blue sky with subtle white clouds forming tricolor effect, the tower with faint blue white red LED accent lights on facade, patriotic celebratory summer atmosphere");
    ("incity_halloween_day.png",
     "Halloween day, dramatic orange and purple sunset sky, moody clouds with eerie autumn colors, the tower with faint orange and purple LED lights glowing on facade, mysterious spooky but fun atmosphere");
    ("incity_saint_valentin_day.png",
     "Valentine's day, soft romantic pink golden hour light, sky with delicate pink and rose colored clouds, the tower with subtle pink heart-shaped LED patterns glowing softly on facade, romantic dreamy love atmosphere")
  ].

Definition generate_all_easter_day : M unit :=
  path ← gets reference_image_path;
  if negb (opt_truthy path) then showerror "Erreur" "Chargez l'image d'abord !" else
  key ← gets api_entry;
  if negb (truthy (strip key)) then showerror "Erreur" "Clé API manquante !" else
  log "Génération batch EASTER EGGS JOUR (6 images)..." ;;
  for_each easter_day_configs (λ '(filename, prompt), start_thread filename prompt).

Definition easter_night_configs : list (string * string) :=
  [
    ("incity_fete_lumieres_night.png",
     "Night scene, dark blue sky with stars, the Incity tower displaying SPECTACULAR COLORFUL LED LIGHT SHOW, animated rainbow colors flowing on the facade, purple blue pink lights, artistic light projections, Lyon Festival of Lights celebration, magical luminous atmosphere, the tower as a beacon of colored lights");
    ("incity_noel_night.png",
     "Christmas night, dark starry sky, light snow falling, the Incity tower displaying FESTIVE RED AND GREEN LED LIGHTS, Christmas tree pattern made of green LEDs, red accents, warm golden fairy lights, holiday spirit, magical cozy Christmas atmosphere on the tower");
    ("incity_nouvel_an_night.png",
     "New Year's Eve night, fireworks exploding in the sky, the Incity tower displaying GOLDEN AND WHITE SPARKLING LED ANIMATION, shimmering golden lights cascading down the facade, champagne gold and silver sparkles, celebratory atmosphere, the tower glowing with festive golden light");
    ("incity_14_juillet_night.png",
     "Bastille Day night, fireworks in the background, the Incity tower displaying FRENCH FLAG COLORS in LED lights, blue white red vertical stripes illuminating the facade, patriotic tricolor lighting, national celebration, the tower proudly showing bleu blanc rouge");
    ("incity_halloween_night.png",
     "Halloween night, full moon visible, spooky atmosphere, the Incity tower displaying ORANGE AND PURPLE LED LIGHTS, jack-o-lantern face pattern in orange LEDs, purple accents, eerie glow, bats silhouettes near the tower, spooky but fun Halloween lighting");
    ("incity_saint_valentin_night.png",
     "Valentine's night, romantic starry sky, the Incity tower displaying PINK AND RED HEART-SHAPED LED PATTERNS, multiple hearts made of pink LEDs flowing up the facade, romantic rose-colored glow, love atmosphere, the tower as a symbol of love with heart lights")
  ].

Definition generate_all_easter_night : M unit :=
  path ← gets reference_image_path;
  if negb (opt_truthy path) then showerror "Erreur" "Chargez l'image d'abord !" else
  key ← gets api_entry;
  if negb (truthy (strip key)) then showerror "Erreur" "Clé API manquante !" else
  log "Génération batch EASTER EGGS NUIT (6 images)..." ;;
  for_each easter_night_configs (λ '(filename, prompt), start_thread filename prompt).

Definition night_configs : list (string * string) :=
  let night_base :=
    "Night scene, dark blue night sky with soft 3D claymorphism clouds, crescent moon visible in the sky, the Incity tower with its rectangular top section displaying HORIZONTAL LED LIGHT LINES, the cylindrical lower section with warm orange lit windows, calm peaceful night atmosphere" in
  [
    ("incity_night_cyan.png",
     night_base +:+ ", the LED lines glowing in bright cyan turquoise color");
    ("incity_night_green.png",
     night_base +:+ ", the LED lines glowing in mint green teal color");
    ("incity_night_yellow.png",
     night_base +:+ ", the LED lines glowing in bright yellow color");
    ("incity_night_red.png",
     night_base +:+ ", the LED lines glowing in vivid red coral color");
    ("incity_night_purple.png",
     night_base +:+ ", the LED lines glowing in deep purple magenta color")
  ].

Definition generate_all_night : M unit :=
  path ← gets reference_image_path;
  if negb (opt_truthy path) then showerror "Erreur" "Chargez l'image d'abord !" else
  key ← gets api_entry;
  if negb (truthy (strip key)) then showerror "Erreur" "Clé API manquante !" else
  log "Génération batch NUIT LED (5 images)..." ;;
  for_each night_configs (λ '(filename, prompt), start_thread filename prompt).

Definition fullmoon_configs : list (string * string) :=
  let fullmoon_base :=
    "Night scene, dark blue night sky with soft 3D claymorphism clouds, LARGE BRIGHT FULL MOON prominently visible in the sky casting silver moonlight, the Incity tower with its rectangular top section displaying HORIZONTAL LED LIGHT LINES, the cylindrical lower section with warm orange lit windows, magical mystical full moon night atmosphere, moon reflecting on tower surface" in
  [
    ("incity_fullmoon_cyan.png",
     fullmoon_base +:+ ", the LED lines glowing in bright cyan turquoise color");
    ("incity_fullmoon_green.png",
     fullmoon_base +:+ ", the LED lines glowing in mint green teal color");
    ("incity_fullmoon_yellow.png",
     fullmoon_base +:+ ", the LED lines glowing in bright yellow color");
    ("incity_fullmoon_red.png",
     fullmoon_base +:+ ", the LED lines glowing in vivid red coral color");
    ("incity_fullmoon_purple.png",
     fullmoon_base +:+ ", the LED lines glowing in deep purple magenta color")
  ].

Definition generate_all_fullmoon : M unit :=
  path ← gets reference_image_path;
  if negb (opt_truthy path) then showerror "Erreur" "Chargez l'image d'abord !" else
  key ← gets api_entry;
  if negb (truthy (strip key)) then showerror "Erreur" "Clé API manquante !" else
  log "Génération batch PLEINE LUNE (5 images)..." ;;
  for_each fullmoon_configs (λ '(filename, prompt), start_thread filename prompt).

Definition generate_all_everything : M unit :=
  path ← gets reference_image_path;
  if negb (opt_truthy path) then showerror "Erreur" "Chargez l'image d'abord !" else
  key ← gets api_entry;
  if negb (truthy (strip key)) then showerror "Erreur" "Clé API manquante !" else
  log "Génération TOTALE (29 images)..." ;;
  generate_all_day ;;
  generate_all_easter_day ;;
  generate_all_easter_night ;;
  generate_all_night ;;
  generate_all_fullmoon.

(** ** Start-up and loading of the reference picture *)

(** [load_image].  The preview is a widget and is not part of the state;
    only whether making it raises is kept. *)
Definition load_image (ui : desktop) : M unit :=
  try_except
    (file_path ← lift (askopenfilename ui);
     if negb (str_truthy file_path) then mret tt else
     set_reference_image_path (Some file_path) ;;
     image ← lift (image_open ui file_path);
     set_pil_image (Some image) ;;
     lift (show_preview ui image) ;;
     log ("Image chargée : " +:+ basename file_path))
    (λ e, log ("ERREUR CHARGEMENT: " +:+ e)).

(** [__init__]: the panel as it starts in a given directory, once its two
    log lines are written. *)
Definition __init__ (d : filesystem) : state :=
  ((log "Système prêt." ;; log "Charger incity.png comme référence.")
     (mkState None None [] [] [] [] d [] [])).2.

End Incity.

(** * [lyon_generator.py] *)

Module Lyon.

Definition opening : string :=
  "Using the provided image of Lyon city, modify the scene to match this weather condition: ".

Definition preservation : list string := [
  "Keep the exact same buildings geometry, camera angle, and claymorphism style. ";
  "Only change the lighting, sky, ground texture, and foliage colors."
].

Definition base_prompt (prompt_details : string) : string :=
  "Using the provided image of Lyon city, modify the scene to match this weather condition: " +:+
  (prompt_details +:+ ". ") +:+
  "Keep the exact same buildings geometry, camera angle, and claymorphism style. " +:+
  "Only change the lighting, sky, ground texture, and foliage colors.".

Definition output_dir (d : filesystem) : string := os_path_join (cwd d) "output_lyon_gemini3".

Section Task.
Context (ext : external).

Definition generate_task (filename prompt_details : string) : M unit :=
  key ← gets api_entry;
  let api_key := strip key in
  match Client ext api_key with
  | Raise e => log ("❌ Erreur Client: " +:+ e)
  | Ok client =>
      log ("⏳ Gemini 3 Pro travaille sur : " +:+ filename +:+ "...") ;;
      output_dir ← gets (λ s, output_dir (disk s));
      os_makedirs output_dir ;;
      let final_path := os_path_join output_dir filename in
      try_except
        (image ← gets pil_image;
         response ← call_generate_content ext client
           {| model := "gemini-3-pro-image-preview";
              contents := (base_prompt prompt_details, image);
              response_modalities := ["IMAGE"];
              aspect_ratio := "16:9";
              image_size := "2K" |};
         image_saved ← save_response ext final_path response;
         if (image_saved : bool) then log ("✅ SUCCÈS : " +:+ filename +:+ " sauvegardé (2K) !")
         else (log "⚠️ API a répondu mais pas d'image. Vérifiez la console." ;;
               print response))
        (λ e, log ("❌ ERREUR API : " +:+ e))
  end.
End Task.

Definition trigger_generation (filename prompt_add : string) : M unit :=
  path ← gets reference_image_path;
  if negb (opt_truthy path) then showerror "Erreur" "Chargez l'image d'abord !" else
  key ← gets api_entry;
  if negb (truthy (strip key)) then showerror "Erreur" "Clé API manquante !" else
  start_thread filename prompt_add.

(** ** The buttons of the panel

    Of each [add_btn] call only the two arguments handed on to
    [trigger_generation] are kept: the file name and the prompt. *)

Definition seasons : list (string * string * string) := [
  ("Printemps", "spring, light green trees, pink cherry blossoms, flowers", "spring");
  ("Été", "summer, vibrant dark green trees, blue sky", "summer");
  ("Automne", "autumn, orange red yellow trees, fall foliage", "autumn");
  ("Hiver", "winter, naked trees, brown branches", "winter")
].

Definition times : list (string * string * string) := [
  ("Jour", "bright sunlight, clear blue sky, sharp shadows", "day");
  ("Golden", "golden hour sunset, warm orange sky", "golden");
  ("Nuit", "night time, dark blue sky, street lights glowing", "night")
].

Definition snow_p : string := "heavy snow covering the city, white roof tops, frozen river, winter".

Definition easter_eggs : list (string * string * string * string * string * string) := [
  ("✨ Fête des Lumières (8-11 déc)",
   "fete_lumieres",
   "early december, clear pale blue winter sky, bright cold daylight, " +:+
   "no snow on ground, bare trees, festive banners hanging on lampposts, " +:+
   "colorful light installations visible on buildings but turned off during day, " +:+
   "projection screens being set up, anticipation atmosphere, crisp winter air",
   "winter night, spectacular light projections on Basilique de Fourvière, " +:+
   "colorful artistic illuminations on buildings, glowing light installations, " +:+
   "purple blue pink lights reflecting on Saône river, magical atmosphere, " +:+
   "Lyon Fête des Lumières festival, no snow",
   "#7B68EE",
   "#4B0082");
  ("🎄 Noël (24-25 déc)",
   "noel",
   "winter, light snow on rooftops, clear cold sky, bright winter sun, " +:+
   "Christmas decorations on streets, festive garlands, " +:+
   "Christmas market stalls with red roofs, decorated Christmas trees, " +:+
   "warm cozy atmosphere, holiday spirit",
   "Christmas Eve night, clear starry sky, gentle snow falling, " +:+
   "warm glowing Christmas lights on buildings, illuminated Christmas trees, " +:+
   "golden fairy lights garlands, cozy warm windows glowing, " +:+
   "magical peaceful Christmas atmosphere, stars twinkling",
   "#228B22",
   "#8B0000");
  ("🎆 Nouvel An (31 déc - 1er jan)",
   "nouvel_an",
   "winter, clear bright sky, festive decorations still up, " +:+
   "New Year preparations, champagne bottles visible, " +:+
   "party atmosphere building up, end of year vibes, " +:+
   "people preparing celebrations",
   "New Year's Eve midnight, spectacular fireworks over Fourvière, " +:+
   "colorful explosions in clear night sky, golden sparkles, " +:+
   "confetti falling, champagne celebration, " +:+
   "crowds cheering, Bonne Année banners, magical night",
   "#FFD700",
   "#FF4500");
  ("🇫🇷 14 Juillet (Fête Nationale)",
   "14_juillet",
   "summer, bright sunny day, clear blue sky, " +:+
   "French tricolor flags bleu blanc rouge everywhere, " +:+
   "Bastille Day celebration, military parade atmosphere, " +:+
   "patriotic decorations, festive national holiday",
   "Bastille Day night, spectacular fireworks in blue white red colors, " +:+
   "French flag colors illuminating the sky over Lyon, " +:+
   "tricolor lights on buildings, national celebration, " +:+
   "clear summer night, crowds watching fireworks",
   "#0055A4",
   "#EF4135");
  ("🎃 Halloween (31 oct)",
   "halloween",
   "late autumn, overcast mysterious sky with dramatic clouds, " +:+
   "orange and brown fall colors, Halloween decorations, " +:+
   "carved pumpkins on doorsteps, spider webs, " +:+
   "eerie but playful atmosphere, bare trees",
   "Halloween night, full moon in clear dark sky, " +:+
   "spooky orange glow from jack-o-lanterns, " +:+
   "mysterious fog in streets, bats silhouettes, " +:+
   "purple and orange lights, haunted atmosphere but whimsical",
   "#FF7518",
   "#2D1B4E");
  ("💕 Saint-Valentin (14 fév)",
   "saint_valentin",
   "mid february, soft romantic winter light, clear pale blue sky, " +:+
   "Valentine's Day decorations on streets, red and pink heart garlands " +:+
   "hanging between buildings, heart-shaped balloons tied to lampposts, " +:+
   "flower shop displays with red roses, no people close-up, " +:+
   "romantic city atmosphere, soft warm feeling",
   "Valentine's night, clear starry sky with soft pink hue, " +:+
   "romantic pink and red fairy lights on bridges over Saône river, " +:+
   "heart-shaped light decorations on buildings, " +:+
   "warm glowing restaurant windows in distance, " +:+
   "rose petals on ground, love atmosphere, no people close-up",
   "#FF69B4",
   "#C71585")
].

Definition clear_sky_tasks : list (string * string) :=
  s ← seasons; t ← times;
  let '(s_name, s_p, s_f) := s in
  let '(t_name, t_p, t_f) := t in
  [("A_" +:+ s_f +:+ "_" +:+ t_f +:+ ".png", s_p +:+ ", " +:+ t_p)].

Definition grey_tasks : list (string * string) :=
  s ← seasons;
  let '(s_name, s_p, s_f) := s in
  [("B_" +:+ s_f +:+ "_grey_day.png", s_p +:+ ", overcast grey sky, flat lighting");
    ("B_" +:+ s_f +:+ "_grey_night.png", s_p +:+ ", night, cloudy sky")].

Definition rain_tasks : list (string * string) :=
  s ← seasons;
  let '(s_name, s_p, s_f) := s in
  [("C_" +:+ s_f +:+ "_rain_day.png", s_p +:+ ", rainy weather, wet ground reflections");
    ("C_" +:+ s_f +:+ "_rain_night.png", s_p +:+ ", rainy night, wet streets")].

Definition snow_tasks : list (string * string) := [
  ("D_snow_day.png", snow_p +:+ ", daylight");
  ("D_snow_golden.png", snow_p +:+ ", sunset light");
  ("D_snow_night.png", snow_p +:+ ", night time")
].

Definition storm_tasks : list (string * string) :=
  s ← seasons;
  let '(s_name, s_p, s_f) := s in
  [("E_storm_" +:+ s_f +:+ ".png", s_p +:+ ", thunderstorm, lightning, dark sky")].

Definition easter_tasks : list (string * string) :=
  e ← easter_eggs;
  let '(event_name, filename_base, prompt_day, prompt_night, color_day, color_night) := e in
  [("F_" +:+ filename_base +:+ "_day.png", prompt_day);
    ("F_" +:+ filename_base +:+ "_night.png", prompt_night)].

Definition catalog : list (string * string) :=
  clear_sky_tasks ++ grey_tasks ++ rain_tasks ++ snow_tasks ++ storm_tasks ++ easter_tasks.

(** ** Start-up and loading of the reference picture *)

(** [load_image].  The width of the preview is [int(140 * (width / height))],
    a floating-point value handed to the widget; of it only the division,
    which raises on a height of zero, is kept. *)
Definition load_image (ui : desktop) : M unit :=
  try_except
    (file_path ← lift (askopenfilename ui);
     if negb (str_truthy file_path) then mret tt else
     set_reference_image_path (Some file_path) ;;
     image ← lift (image_open ui file_path);
     set_pil_image (Some image) ;;
     (if (height image =? 0)%N then raise "division by zero" else mret tt) ;;
     lift (show_preview ui image) ;;
     log ("Image chargée : " +:+ basename file_path))
    (λ e, log ("ERREUR CHARGEMENT: " +:+ e)).

Definition __init__ (d : filesystem) : state :=
  ((log "Système prêt. SDK 'google-genai' chargé." ;;
    log "En attente de l'image de référence...")
     (mkState None None [] [] [] [] d [] [])).2.

End Lyon.


(** * Vocabulary of the properties *)

(** The commands bound to the controls of the two panels. *)
Inductive entry_point : M unit → Prop :=
  | incity_trigger f p : entry_point (Incity.trigger_generation f p)
  | incity_all_day : entry_point Incity.generate_all_day
  | incity_all_easter_day : entry_point Incity.generate_all_easter_day
  | incity_all_easter_night : entry_point Incity.generate_all_easter_night
  | incity_all_night : entry_point Incity.generate_all_night
  | incity_all_fullmoon : entry_point Incity.generate_all_fullmoon
  | incity_all_everything : entry_point Incity.generate_all_everything
  | lyon_trigger f p : entry_point (Lyon.trigger_generation f p).

(** No reference image: [reference_image_path], which [load_image] sets
    when a file is chosen, is [None] or empty. *)
Definition image_missing (s : state) : Prop :=
  opt_truthy (reference_image_path s) = false.

(** The credential field is empty or holds white space only. *)
Definition blank (k : pystr) : Prop := Forall (λ c, isspace c = true) k.

Definition ready (s : state) : Prop :=
  opt_truthy (reference_image_path s) = true ∧ truthy (strip (api_entry s)) = true.

Definition missing_image_dialog : string * string := ("Erreur", "Chargez l'image d'abord !").
Definition missing_key_dialog : string * string := ("Erreur", "Clé API manquante !").

(** What a command adds to the requests and to the log. *)
Definition submitted {A} (c : M A) (s : state) : list request :=
  drop (length (calls s)) (calls (c s).2).

Definition emitted {A} (c : M A) (s : state) : list string :=
  drop (length (log_box s)) (log_box (c s).2).

(** The five groups of the Incity panel, their buttons and their
    "generate all" command. *)
Inductive group : Type := WeatherDay | EasterDay | EasterNight | NightLed | FullmoonLed.

Definition members (g : group) : list Incity.button :=
  match g with
  | WeatherDay => Incity.weather_day_buttons
  | EasterDay => Incity.easter_day_buttons
  | EasterNight => Incity.easter_night_buttons
  | NightLed => Incity.night_buttons
  | FullmoonLed => Incity.fullmoon_buttons
  end.

Definition generate_all (g : group) : M unit :=
  match g with
  | WeatherDay => Incity.generate_all_day
  | EasterDay => Incity.generate_all_easter_day
  | EasterNight => Incity.generate_all_easter_night
  | NightLed => Incity.generate_all_night
  | FullmoonLed => Incity.generate_all_fullmoon
  end.

(** The requests of the two programs. *)
Definition incity_request (prompt_details : string) (s : state) : request :=
  {| model := "gemini-3-pro-image-preview";
     contents := (Incity.base_prompt prompt_details, pil_image s);
     response_modalities := ["IMAGE"];
     aspect_ratio := "1:1";
     image_size := "2K" |}.

Definition lyon_request (prompt_details : string) (s : state) : request :=
  {| model := "gemini-3-pro-image-preview";
     contents := (Lyon.base_prompt prompt_details, pil_image s);
     response_modalities := ["IMAGE"];
     aspect_ratio := "16:9";
     image_size := "2K" |}.

(** A response without image data: no part has [inline_data]. *)
Definition no_image_data (r : response) : Prop :=
  match parts r with
  | None => True
  | Some ps => Forall (λ q, inline_data q = None) ps
  end.

(** The adapter call raised, or answered without image data. *)
Inductive fruitless : result response → Prop :=
  | fruitless_raise e : fruitless (Raise e)
  | fruitless_empty r : no_image_data r → fruitless (Ok r).

Definition accessor_unusable (p : part) : Prop :=
  as_image p = NoAccessor ∨ as_image p = AccessorRaises.

(** [p] is the first part of [ps] that has [inline_data]; when its accessor
    is of no use, no later image part has one that works.  A response with
    a single image part is the plain case. *)
Definition first_image (ps : list part) (p : part) : Prop :=
  ∃ pre post, ps = pre ++ p :: post
    ∧ Forall (λ q, inline_data q = None) pre
    ∧ (accessor_unusable p →
       Forall (λ q, inline_data q = None ∨ accessor_unusable q) post).

(** The image bytes [b] that the adapter returns in a part: its inline
    data, which is [b] itself or text that is the base64 form of [b]; an
    image that the accessor hands out holds the same bytes. *)
Definition carries (ext : external) (p : part) (b : bytes) : Prop :=
  (∃ blob, inline_data p = Some blob
           ∧ match data blob with
             | DataStr text => b64decode ext text = Ok b
             | DataBytes raw => raw = b
             end)
  ∧ ∀ b', as_image p = AccessorImage b' → b' = b.

Definition stored (path : string) (b : bytes) (s : state) : state :=
  with_disk (with_nodes (<[path := File b]> (nodes (disk s))) (disk s)) s.

(** The log texts of the two programs. *)
Definition entry (message : string) : string := "> " +:+ message +:+ newline.

Definition incity_failure_entry (filename : string) (o : result response) : string :=
  match o with
  | Raise e => entry ("ERREUR: " +:+ e)
  | Ok _ => entry ("Pas d'image retournée pour " +:+ filename)
  end.

Definition lyon_failure_entry (o : result response) : string :=
  match o with
  | Raise e => entry ("❌ ERREUR API : " +:+ e)
  | Ok _ => entry "⚠️ API a répondu mais pas d'image. Vérifiez la console."
  end.

(** ** [base64.b64decode] and sample surroundings *)

Definition b64_digit (c : ascii) : option N :=
  let n := N_of_ascii c in
  (if (65 <=? n) && (n <=? 90) then Some (n - 65)
   else if (97 <=? n) && (n <=? 122) then Some (n - 71)
   else if (48 <=? n) && (n <=? 57) then Some (n + 4)
   else if n =? 43 then Some 62
   else if n =? 47 then Some 63
   else None)%N.

Definition byte_of (n : N) : byte := default x00 (Byte.of_N (n mod 256)%N).

(** [base64.b64decode] of a text, as CPython computes it.  The text has to
    be ASCII.  [binascii.a2b_base64] then reads it from left to right:
    what is no base64 digit is skipped, a [=] counts only when two or three
    digits of a group were read, the padding that completes the group ends
    the reading, and a last group that is cut short is an error. *)
Fixpoint a2b_base64 (s : string) (quad_pos pads leftchar : N) (bin : bytes)
  : result bytes :=
  match s with
  | EmptyString =>
      if (quad_pos =? 0)%N then Ok bin
      else if (quad_pos =? 1)%N then
        Raise ("Invalid base64-encoded string: number of data characters ("
               +:+ pretty (N.of_nat (length bin) / 3 * 4 + 1)%N
               +:+ ") cannot be 1 more than a multiple of 4")
      else Raise "Incorrect padding"
  | String c s' =>
      if Ascii.eqb c "=" then
        if (2 <=? quad_pos)%N then
          if (4 <=? quad_pos + (pads + 1))%N then Ok bin
          else a2b_base64 s' quad_pos (pads + 1)%N leftchar bin
        else a2b_base64 s' quad_pos pads leftchar bin
      else
        match b64_digit c with
        | None => a2b_base64 s' quad_pos pads leftchar bin
        | Some this_ch =>
            if (quad_pos =? 0)%N then a2b_base64 s' 1%N 0%N this_ch bin
            else if (quad_pos =? 1)%N then
              a2b_base64 s' 2%N 0%N (this_ch mod 16)%N
                (bin ++ [byte_of (leftchar * 4 + this_ch / 16)%N])
            else if (quad_pos =? 2)%N then
              a2b_base64 s' 3%N 0%N (this_ch mod 4)%N
                (bin ++ [byte_of (leftchar * 16 + this_ch / 4)%N])
            else
              a2b_base64 s' 0%N 0%N 0%N (bin ++ [byte_of (leftchar * 64 + this_ch)%N])
        end
  end.

Fixpoint is_ascii (s : string) : bool :=
  match s with
  | EmptyString => true
  | String c s' => (N_of_ascii c <? 128)%N && is_ascii s'
  end.

Definition b64decode_ref (s : string) : result bytes :=
  if is_ascii s then a2b_base64 s 0%N 0%N 0%N []
  else Raise "string argument should contain only ASCII characters".

(** An image service whose client wants a key and which answers every call
    the same way. *)
Definition scripted (g : result response) : external :=
  {| client := unit;
     Client := λ api_key,
       if truthy api_key then Ok tt else Raise "Missing key inputs argument!";
     generate_content := λ _ _, g;
     b64decode := b64decode_ref |}.

Definition png : bytes := String.list_byte_of_string "PNG-1".

Definition bytes_part (b : bytes) : part :=
  {| inline_data := Some {| data := DataBytes b |}; as_image := NoAccessor |}.

Definition text_part (t : string) : part :=
  {| inline_data := Some {| data := DataStr t |}; as_image := AccessorRaises |}.

Definition plain_part : part := {| inline_data := None; as_image := NoAccessor |}.

Definition sample_disk : filesystem := mkFs "/home/lea" ∅ false.

(** The panel once a picture is loaded and a key typed. *)
Definition sample_state : state :=
  mkState (Some "/home/lea/incity.png")
          (Some {| width := 1; height := 1; pixels := [x00; x00; x00] |})
          [65; 73; 122; 97]%N [] [] [] sample_disk [] [].

(** The panel as it starts: nothing loaded, nothing typed. *)
Definition fresh_state : state :=
  mkState None None [] [] [] [] sample_disk [] [].

(** A regular file sits where the output directory should go. *)
Definition occupied_disk : filesystem :=
  mkFs "/home/lea" {[ "/home/lea/output_incity" := File [] ]} false.

Definition occupied_state : state := with_disk occupied_disk sample_state.


(** ** The states a task run goes through *)

Definition logged (message : string) (s : state) : state :=
  with_log (log_box s ++ [entry message]) s.

(** Incity: after the progress entry and the directory creation, and after
    the request is handed over. *)
Definition incity_started (filename : string) (d1 : filesystem) (s : state) : state :=
  with_disk d1 (logged ("Génération: " +:+ filename +:+ "...") s).

Definition incity_called (filename prompt_details : string) (d1 : filesystem) (s : state)
  : state :=
  with_calls (calls s ++ [incity_request prompt_details s]) (incity_started filename d1 s).

(** Incity: the end of [generate_task], from what the loop over the parts
    returned. *)
Definition incity_finish (filename : string) (r : response) (o : result bool * state)
  : result unit * state :=
  match o with
  | (Ok true, s) => (Ok tt, logged ("OK: " +:+ filename) s)
  | (Ok false, s) =>
      (Ok tt, with_console (console s ++ [r])
                (logged ("Pas d'image retournée pour " +:+ filename) s))
  | (Raise e, s) => (Ok tt, logged ("ERREUR: " +:+ e) s)
  end.

Definition lyon_started (filename : string) (d1 : filesystem) (s : state) : state :=
  with_disk d1 (logged ("⏳ Gemini 3 Pro travaille sur : " +:+ filename +:+ "...") s).

Definition lyon_called (filename prompt_details : string) (d1 : filesystem) (s : state)
  : state :=
  with_calls (calls s ++ [lyon_request prompt_details s]) (lyon_started filename d1 s).

Definition lyon_finish (filename : string) (r : response) (o : result bool * state)
  : result unit * state :=
  match o with
  | (Ok true, s) => (Ok tt, logged ("✅ SUCCÈS : " +:+ filename +:+ " sauvegardé (2K) !") s)
  | (Ok false, s) =>
      (Ok tt, with_console (console s ++ [r])
                (logged "⚠️ API a répondu mais pas d'image. Vérifiez la console." s))
  | (Raise e, s) => (Ok tt, logged ("❌ ERREUR API : " +:+ e) s)
  end.

(** A "generate all" command of a ready panel: one log entry, then one
    thread per row of its table. *)
Definition batch_outcome (message : string) (l : list (string * string)) (s : state) : state :=
  with_threads (threads s ++ l) (logged message s).

(** [preserves R m]: running [m], whether it returns or raises, takes a
    state to one related to it by [R]. *)
Definition preserves {A} (R : relation state) (m : M A) : Prop := ∀ s, R s (m s).2.

(** Directories stay directories. *)
Definition dirs_kept (s s' : state) : Prop :=
  ∀ q, is_dir q (disk s) → is_dir q (disk s').

(** The requests handed to the adapter stay the same. *)
Definition same_calls (s s' : state) : Prop := calls s' = calls s.

(** ** The two programs side by side *)

Inductive program : Type := IncityGenerator | LyonGenerator.

Definition run_task (g : program) (ext : external) (filename prompt_details : string)
  : M unit :=
  match g with
  | IncityGenerator => Incity.generate_task ext filename prompt_details
  | LyonGenerator => Lyon.generate_task ext filename prompt_details
  end.

Definition base_prompt_of (g : program) : string → string :=
  match g with
  | IncityGenerator => Incity.base_prompt
  | LyonGenerator => Lyon.base_prompt
  end.

Definition opening_of (g : program) : string :=
  match g with
  | IncityGenerator => Incity.opening
  | LyonGenerator => Lyon.opening
  end.

Definition preservation_of (g : program) : list string :=
  match g with
  | IncityGenerator => Incity.preservation
  | LyonGenerator => Lyon.preservation
  end.

Definition output_dir_of (g : program) : filesystem → string :=
  match g with
  | IncityGenerator => Incity.output_dir
  | LyonGenerator => Lyon.output_dir
  end.

Definition request_of (g : program) : string → state → request :=
  match g with
  | IncityGenerator => incity_request
  | LyonGenerator => lyon_request
  end.

Definition progress_entry (g : program) (filename : string) : string :=
  match g with
  | IncityGenerator => entry ("Génération: " +:+ filename +:+ "...")
  | LyonGenerator => entry ("⏳ Gemini 3 Pro travaille sur : " +:+ filename +:+ "...")
  end.

Definition success_entry (g : program) (filename : string) : string :=
  match g with
  | IncityGenerator => entry ("OK: " +:+ filename)
  | LyonGenerator => entry ("✅ SUCCÈS : " +:+ filename +:+ " sauvegardé (2K) !")
  end.

Definition failure_entry (g : program) (filename : string) (o : result response) : string :=
  match g with
  | IncityGenerator => incity_failure_entry filename o
  | LyonGenerator => lyon_failure_entry o
  end.

Definition called (g : program) (filename prompt_details : string) (d1 : filesystem)
    (s : state) : state :=
  match g with
  | IncityGenerator => incity_called filename prompt_details d1 s
  | LyonGenerator => lyon_called filename prompt_details d1 s
  end.

Definition finish (g : program) (filename : string) (r : response)
    (o : result bool * state) : result unit * state :=
  match g with
  | IncityGenerator => incity_finish filename r o
  | LyonGenerator => lyon_finish filename r o
  end.

(** An entry that gives both the file name and the failure description. *)
Definition names_failure (filename e : string) (line : string) : bool :=
  infix filename line && infix e line.

(** ** Start-up, loading and buttons of the two programs *)

Definition load_image_of (g : program) : desktop → M unit :=
  match g with
  | IncityGenerator => Incity.load_image
  | LyonGenerator => Lyon.load_image
  end.

Definition init_of (g : program) : filesystem → state :=
  match g with
  | IncityGenerator => Incity.__init__
  | LyonGenerator => Lyon.__init__
  end.

Definition trigger_of (g : program) : string → string → M unit :=
  match g with
  | IncityGenerator => Incity.trigger_generation
  | LyonGenerator => Lyon.trigger_generation
  end.

Definition catalog_of (g : program) : list (string * string) :=
  match g with
  | IncityGenerator => Incity.catalog
  | LyonGenerator => Lyon.catalog
  end.

(** Lyon's preview divides by the height of the picture. *)
Definition previewable (g : program) (image : Image) : Prop :=
  match g with
  | IncityGenerator => True
  | LyonGenerator => height image ≠ 0%N
  end.

(** A desktop on which the user picks [p], the picture decodes as [o] and
    the preview is shown. *)
Definition picking (p : string) (o : result Image) : desktop :=
  {| askopenfilename := Ok p; image_open := λ _, o; show_preview := λ _, Ok tt |}.

Definition pixel : Image := {| width := 1; height := 1; pixels := [x00; x00; x00] |}.

Fixpoint ends_with (x s : string) : bool :=
  String.eqb x s ||
  match s with
  | EmptyString => false
  | String _ s' => ends_with x s'
  end.

(** A plain PNG name: no [/] in it, and [.png] at the end. *)
Definition plain_png (name : string) : bool :=
  negb (has_sep name) && ends_with ".png" name.

(** What the loop over the parts can do to a state: nothing, or leave some
    bytes in the file at [path]. *)
Definition rewritten (path : string) (s s' : state) : Prop :=
  s' = s ∨ ∃ b, s' = stored path b s.

Definition client_error_entry (g : program) (e : string) : string :=
  match g with
  | IncityGenerator => entry ("Erreur Client: " +:+ e)
  | LyonGenerator => entry ("❌ Erreur Client: " +:+ e)
  end.

(** The output directory is there and [name] under it is a directory too:
    the file of that name cannot be written. *)
Definition blocked_disk (name : string) : filesystem :=
  mkFs "/home/lea"
       {[ "/home/lea/output_incity" := Dir;
          "/home/lea/output_incity/" +:+ name := Dir ]} false.

Definition accessor_part (raw image_bytes : bytes) : part :=
  {| inline_data := Some {| data := DataBytes raw |};
     as_image := AccessorImage image_bytes |}.

Definition raising_part (raw : bytes) : part :=
  {| inline_data := Some {| data := DataBytes raw |}; as_image := AccessorRaises |}.

(** An answer whose image part has undecodable text and a working accessor,
    followed by a second image part; and one whose first image part has a
    raising accessor and whose second has a working one. *)
Definition accessor_answer : response :=
  {| parts := Some ([plain_part]
                    ++ {| inline_data := Some {| data := DataStr "aGk" |};
                          as_image := AccessorImage png |}
                    :: [bytes_part []]) |}.

Definition relay_answer : response :=
  {| parts := Some ([] ++ raising_part [x00] :: [] ++ accessor_part [x01] png :: []) |}.

(** ** The life of a panel

    What can happen to a panel, one step at a time: the user loads a
    picture, types in the credential field, presses a button of the catalog
    or (Incity) a grouped command, and a started thread runs its task
    against some adapter.  A thread is allowed to run any number of times
    and the disk is acted upon by the tasks only. *)
Inductive batch_command : M unit → Prop :=
  | batch_day : batch_command Incity.generate_all_day
  | batch_easter_day : batch_command Incity.generate_all_easter_day
  | batch_easter_night : batch_command Incity.generate_all_easter_night
  | batch_night : batch_command Incity.generate_all_night
  | batch_fullmoon : batch_command Incity.generate_all_fullmoon
  | batch_everything : batch_command Incity.generate_all_everything.

Inductive panel_step (g : program) : state → state → Prop :=
  | step_load_image ui s : panel_step g s (load_image_of g ui s).2
  | step_type_key k s : panel_step g s (with_api_entry k s)
  | step_click t s : t ∈ catalog_of g → panel_step g s (trigger_of g t.1 t.2 s).2
  | step_batch c s : g = IncityGenerator → batch_command c → panel_step g s (c s).2
  | step_thread ext t s : t ∈ threads s → panel_step g s (run_task g ext t.1 t.2 s).2.

Inductive reachable (g : program) (d0 : filesystem) : state → Prop :=
  | reachable_init : reachable g d0 (init_of g d0)
  | reachable_step s s' : reachable g d0 s → panel_step g s s' → reachable g d0 s'.

Definition known_dialog (x : string * string) : Prop :=
  x = missing_image_dialog ∨ x = missing_key_dialog.

(** What one step can do. *)
Definition advance (g : program) (s s' : state) : Prop :=
  (¬ image_missing s → ¬ image_missing s')
  ∧ (pil_image s' = pil_image s ∨ ¬ image_missing s')
  ∧ (∃ l, threads s' = threads s ++ l
          ∧ Forall (λ t, t ∈ catalog_of g) l
          ∧ (l = [] ∨ ¬ image_missing s'))
  ∧ (∃ dl, dialogs s' = dialogs s ++ dl ∧ Forall known_dialog dl)
  ∧ (∃ cs, calls s' = calls s ++ cs
           ∧ Forall (λ rq, ∃ t, t ∈ threads s ∧ (contents rq).1 = base_prompt_of g t.2) cs)
  ∧ cwd (disk s') = cwd (disk s)
  ∧ read_only (disk s') = read_only (disk s)
  ∧ (∀ q, nodes (disk s') !! q = nodes (disk s) !! q
          ∨ q = output_dir_of g (disk s)
          ∨ ∃ t, t ∈ threads s ∧ q = os_path_join (output_dir_of g (disk s)) t.1).

(** What holds of every state a panel can be in. *)
Definition panel_inv (g : program) (d0 : filesystem) (s : state) : Prop :=
  (pil_image s ≠ None → ¬ image_missing s)
  ∧ Forall (λ t, t ∈ catalog_of g) (threads s)
  ∧ (threads s ≠ [] → ¬ image_missing s)
  ∧ Forall known_dialog (dialogs s)
  ∧ Forall (λ rq, ∃ t, t ∈ catalog_of g ∧ (contents rq).1 = base_prompt_of g t.2) (calls s)
  ∧ cwd (disk s) = cwd d0
  ∧ read_only (disk s) = read_only d0
  ∧ (∀ q, nodes (disk s) !! q = nodes d0 !! q
          ∨ q = output_dir_of g d0
          ∨ ∃ t, t ∈ catalog_of g ∧ q = os_path_join (output_dir_of g d0) t.1).

(** A short session of the Incity panel: start, load a picture, type a key,
    press the first button, let its thread run. *)
Definition first_task : string * string := default ("", "") (head Incity.catalog).

Definition session_loaded : state :=
  (Incity.load_image (picking "/home/lea/incity.png" (Ok pixel))
     (Incity.__init__ sample_disk)).2.

Definition session_started : state :=
  (Incity.trigger_generation first_task.1 first_task.2
     (with_api_entry [65; 73; 122; 97]%N session_loaded)).2.

Definition session_done : state :=
  (Incity.generate_task (scripted (Ok {| parts := Some [bytes_part png] |}))
     first_task.1 first_task.2 session_started).2.

(** ** A file that is no picture, and plain names *)

Definition typed_key : pystr := [65; 73; 122; 97]%N.

(** The panel of a program, started in the sample directory, after [k] was
    typed in the credential field and a file that is no picture was chosen:
    [load_image] has set the path and there is no picture. *)
Definition undecoded (g : program) (k : pystr) : state :=
  (load_image_of g
     (picking "/home/lea/notes.png"
        (Raise "cannot identify image file '/home/lea/notes.png'"))
     (with_api_entry k (init_of g sample_disk))).2.

(** A plain file name: one path component, not empty, not [.] and not [..]. *)
Definition plain_name (name : string) : bool :=
  str_truthy name && negb (has_sep name)
  && negb (String.eqb name ".") && negb (String.eqb name "..").

(** An adapter that answers every request with the five bytes [PNG-1], and
    two tasks of the Incity catalog. *)
Definition png_service : external := scripted (Ok {| parts := Some [bytes_part png] |}).

Definition rain_task : string * string := default ("", "") (Incity.catalog !! 4%nat).

(** The first task of the Lyon catalog. *)
Definition lyon_first_task : string * string := default ("", "") (head Lyon.catalog).

(** ** Two runs, one after the other *)







(** * Texts and paths *)

Lemma append_nil (b : string) : "" +:+ b = b.
Proof. reflexivity. Qed.

Lemma append_cons (x : ascii) (a b : string) : String x a +:+ b = String x (a +:+ b).
Proof. reflexivity. Qed.

Lemma append_assoc (a b c : string) : (a +:+ b) +:+ c = a +:+ (b +:+ c).
Proof.
  induction a as [|x a IH]; [done |].
  by rewrite !append_cons, IH.
Qed.

Lemma append_length (a b : string) :
  String.length (a +:+ b) = String.length a + String.length b.
Proof.
  induction a as [|x a IH]; [done |].
  rewrite append_cons. simpl. by rewrite IH.
Qed.

Lemma append_grows (a b : string) : str_truthy b = true → a +:+ b ≠ a.
Proof.
  intros Hb Heq. apply (f_equal String.length) in Heq.
  rewrite append_length in Heq. destruct b; [done | simpl in Heq; lia].
Qed.

Lemma prefix_append (c b : string) : String.prefix c (c +:+ b) = true.
Proof.
  induction c as [|x c IH]; [by destruct b |].
  rewrite append_cons. simpl.
  destruct (ascii_dec x x); [done | congruence].
Qed.

Lemma infix_prefix (c s : string) : String.prefix c s = true → infix c s = true.
Proof. intros H. destruct s; simpl in *; by rewrite H. Qed.

Lemma infix_append (a c b : string) : infix c (a +:+ c +:+ b) = true.
Proof.
  induction a as [|x a IH].
  - rewrite append_nil. apply infix_prefix, prefix_append.
  - rewrite append_cons. simpl. rewrite IH. apply orb_true_r.
Qed.

(** The boolean search finds every included text. *)
Lemma includes_infix (c s : string) : includes c s → infix c s = true.
Proof. intros (a & b & ->). apply infix_append. Qed.

Lemma str_truthy_append (a b : string) : str_truthy b = true → str_truthy (a +:+ b) = true.
Proof. by destruct a, b. Qed.

Lemma endswith_sep_append (a b : string) :
  str_truthy b = true → endswith_sep (a +:+ b) = endswith_sep b.
Proof.
  intros Hb. induction a as [|x a IH]; [done |].
  rewrite append_cons. simpl. rewrite IH.
  destruct (a +:+ b) eqn:E; [| done].
  destruct a, b; done.
Qed.

(** A relative name is placed right under the directory. *)
Lemma os_path_join_relative (a b : string) :
  str_truthy a = true → endswith_sep a = false → startswith_sep b = false →
  os_path_join a b = a +:+ "/" +:+ b.
Proof. intros Ha He Hb. unfold os_path_join. by rewrite Hb, Ha, He. Qed.

Lemma os_path_join_name (a name : string) :
  str_truthy name = true → startswith_sep name = false → endswith_sep name = false →
  str_truthy (os_path_join a name) = true ∧ endswith_sep (os_path_join a name) = false.
Proof.
  intros Hn Hs He. unfold os_path_join. rewrite Hs.
  destruct (negb (str_truthy a) || endswith_sep a).
  - by rewrite str_truthy_append, endswith_sep_append.
  - rewrite str_truthy_append, endswith_sep_append; [| done ..].
    by rewrite (endswith_sep_append "/" name).
Qed.

Lemma incity_final_path (d : filesystem) (filename : string) :
  startswith_sep filename = false →
  os_path_join (Incity.output_dir d) filename = Incity.output_dir d +:+ "/" +:+ filename
  ∧ os_path_join (Incity.output_dir d) filename ≠ Incity.output_dir d.
Proof.
  intros Hf.
  destruct (os_path_join_name (cwd d) "output_incity") as [Ht He]; [done ..|].
  rewrite os_path_join_relative by done.
  split; [done |]. by apply append_grows.
Qed.

Lemma lyon_final_path (d : filesystem) (filename : string) :
  startswith_sep filename = false →
  os_path_join (Lyon.output_dir d) filename = Lyon.output_dir d +:+ "/" +:+ filename
  ∧ os_path_join (Lyon.output_dir d) filename ≠ Lyon.output_dir d.
Proof.
  intros Hf.
  destruct (os_path_join_name (cwd d) "output_lyon_gemini3") as [Ht He]; [done ..|].
  rewrite os_path_join_relative by done.
  split; [done |]. by apply append_grows.
Qed.

(** Every file name of the two catalogs is relative. *)
Lemma catalog_names_relative :
  Forall (λ t, startswith_sep t.1 = false) (Incity.catalog ++ Lyon.catalog).
Proof. apply (bool_decide_unpack _). by vm_compute. Qed.

Lemma catalog_relative (g : program) :
  Forall (λ t, startswith_sep t.1 = false) (catalog_of g).
Proof. destruct g; apply (bool_decide_unpack _); by vm_compute. Qed.

(** * The credential field *)

Lemma lstrip_blank (k : pystr) : blank k → lstrip k = [].
Proof.
  induction 1 as [|c k Hc _ IH]; [done |]. simpl. by rewrite Hc.
Qed.

Lemma strip_blank (k : pystr) : blank k → strip k = [].
Proof. intros H. unfold strip, rstrip. by rewrite (lstrip_blank k H). Qed.

Lemma lstrip_nil_blank (k : pystr) : lstrip k = [] → blank k.
Proof.
  induction k as [|c k IH]; [constructor |].
  simpl. destruct (isspace c) eqn:Hc; [| done].
  intros H. constructor; [done | by apply IH].
Qed.

Lemma strip_nil_blank (k : pystr) : strip k = [] → blank k.
Proof.
  unfold strip, rstrip. intros H.
  apply lstrip_nil_blank.
  apply (f_equal reverse) in H. rewrite reverse_involutive in H.
  apply lstrip_nil_blank in H. unfold blank in *.
  rewrite Forall_reverse in H.
  destruct (lstrip k) as [|c l] eqn:E; [done |].
  exfalso. inversion H as [|? ? Hc _]; subst.
  clear H. induction k as [|x k IH]; [done |].
  simpl in E. destruct (isspace x) eqn:Hx; [by apply IH |].
  injection E as -> ->. congruence.
Qed.

Lemma truthy_strip (k : pystr) : truthy (strip k) = false ↔ blank k.
Proof.
  split.
  - intros H. apply strip_nil_blank. by destruct (strip k).
  - intros H. by rewrite strip_blank.
Qed.

(** * Dispatch *)

Lemma blank_not_ready (s : state) : blank (api_entry s) → truthy (strip (api_entry s)) = false.
Proof. by intros H%truthy_strip. Qed.

(** Without a reference image an entry point only shows the first dialog. *)
Lemma entry_point_missing_image (c : M unit) (s : state) :
  entry_point c → image_missing s →
  c s = (Ok tt, with_dialogs (dialogs s ++ [missing_image_dialog]) s).
Proof.
  unfold image_missing. intros Hc Hp.
  destruct Hc;
    cbv [Incity.trigger_generation Lyon.trigger_generation Incity.generate_all_day
         Incity.generate_all_easter_day Incity.generate_all_easter_night
         Incity.generate_all_night Incity.generate_all_fullmoon
         Incity.generate_all_everything mbind M_bind gets];
    by rewrite Hp.
Qed.

(** With an image and a blank credential it only shows the second one. *)
Lemma entry_point_missing_key (c : M unit) (s : state) :
  entry_point c → ¬ image_missing s → blank (api_entry s) →
  c s = (Ok tt, with_dialogs (dialogs s ++ [missing_key_dialog]) s).
Proof.
  unfold image_missing. intros Hc Hp Hk%blank_not_ready.
  apply not_false_is_true in Hp.
  destruct Hc;
    cbv [Incity.trigger_generation Lyon.trigger_generation Incity.generate_all_day
         Incity.generate_all_easter_day Incity.generate_all_easter_night
         Incity.generate_all_night Incity.generate_all_fullmoon
         Incity.generate_all_everything mbind M_bind gets];
    rewrite Hp; cbn [negb]; by rewrite Hk.
Qed.

(** The command of every button is an entry point. *)
Lemma click_entry_point (b : Incity.button) : entry_point (Incity.click b).
Proof. apply incity_trigger. Qed.

Lemma for_each_start_thread (l : list (string * string)) (s : state) :
  for_each l (λ '(filename, prompt), start_thread filename prompt) s
  = (Ok tt, with_threads (threads s ++ l) s).
Proof.
  revert s. induction l as [|[f p] l IH]; intros s.
  - cbn. rewrite app_nil_r. by destruct s.
  - cbn. unfold mbind, M_bind. cbn. rewrite IH. cbn.
    by rewrite <- app_assoc.
Qed.

Lemma batch_outcome_ready (message : string) (l : list (string * string)) (s : state) :
  ready s → ready (batch_outcome message l s).
Proof. done. Qed.

Ltac batch_ready :=
  let Hp := fresh "Hp" in let Hk := fresh "Hk" in
  intros [Hp Hk];
  cbv [Incity.generate_all_day Incity.generate_all_easter_day
       Incity.generate_all_easter_night Incity.generate_all_night
       Incity.generate_all_fullmoon mbind M_bind gets];
  rewrite Hp; cbn [negb]; rewrite Hk; cbn [negb]; unfold log at 1;
  by rewrite for_each_start_thread.

Lemma generate_all_day_ready (s : state) :
  ready s →
  Incity.generate_all_day s
  = (Ok tt, batch_outcome "Génération batch MÉTÉO JOUR (7 images)..." Incity.day_configs s).
Proof. batch_ready. Qed.

Lemma generate_all_easter_day_ready (s : state) :
  ready s →
  Incity.generate_all_easter_day s
  = (Ok tt, batch_outcome "Génération batch EASTER EGGS JOUR (6 images)..."
                          Incity.easter_day_configs s).
Proof. batch_ready. Qed.

Lemma generate_all_easter_night_ready (s : state) :
  ready s →
  Incity.generate_all_easter_night s
  = (Ok tt, batch_outcome "Génération batch EASTER EGGS NUIT (6 images)..."
                          Incity.easter_night_configs s).
Proof. batch_ready. Qed.

Lemma generate_all_night_ready (s : state) :
  ready s →
  Incity.generate_all_night s
  = (Ok tt, batch_outcome "Génération batch NUIT LED (5 images)..." Incity.night_configs s).
Proof. batch_ready. Qed.

Lemma generate_all_fullmoon_ready (s : state) :
  ready s →
  Incity.generate_all_fullmoon s
  = (Ok tt, batch_outcome "Génération batch PLEINE LUNE (5 images)..."
                          Incity.fullmoon_configs s).
Proof. batch_ready. Qed.

Lemma members_configs (g : group) :
  map Incity.task_of (members g)
  = match g with
    | WeatherDay => Incity.day_configs
    | EasterDay => Incity.easter_day_configs
    | EasterNight => Incity.easter_night_configs
    | NightLed => Incity.night_configs
    | FullmoonLed => Incity.fullmoon_configs
    end.
Proof. destruct g; by vm_compute. Qed.

Lemma catalog_groups :
  Incity.catalog
  = Incity.day_configs ++ Incity.easter_day_configs ++ Incity.easter_night_configs
    ++ Incity.night_configs ++ Incity.fullmoon_configs.
Proof. by vm_compute. Qed.

Lemma catalog_NoDup : NoDup (map fst Incity.catalog).
Proof. apply (bool_decide_unpack _). by vm_compute. Qed.

Lemma generate_all_ready (g : group) (s : state) :
  ready s →
  threads (generate_all g s).2 = threads s ++ map Incity.task_of (members g).
Proof.
  intros Hs. rewrite members_configs. destruct g; simpl.
  - by rewrite generate_all_day_ready.
  - by rewrite generate_all_easter_day_ready.
  - by rewrite generate_all_easter_night_ready.
  - by rewrite generate_all_night_ready.
  - by rewrite generate_all_fullmoon_ready.
Qed.

Lemma generate_all_everything_ready (s : state) :
  ready s →
  threads (Incity.generate_all_everything s).2 = threads s ++ Incity.catalog.
Proof.
  intros Hs. pose proof Hs as [Hp Hk].
  cbv [Incity.generate_all_everything mbind M_bind gets].
  rewrite Hp; cbn [negb]; rewrite Hk; cbn [negb]; unfold log at 1.
  set (s0 := with_log _ s).
  assert (ready s0) as H0 by done.
  rewrite (generate_all_day_ready s0 H0).
  set (s1 := batch_outcome _ _ s0). assert (ready s1) as H1 by done.
  rewrite (generate_all_easter_day_ready s1 H1).
  set (s2 := batch_outcome _ _ s1). assert (ready s2) as H2 by done.
  rewrite (generate_all_easter_night_ready s2 H2).
  set (s3 := batch_outcome _ _ s2). assert (ready s3) as H3 by done.
  rewrite (generate_all_night_ready s3 H3).
  set (s4 := batch_outcome _ _ s3). assert (ready s4) as H4 by done.
  rewrite (generate_all_fullmoon_ready s4 H4).
  rewrite catalog_groups. subst s0 s1 s2 s3 s4. cbn [snd batch_outcome threads with_threads with_log].
  by rewrite <- !app_assoc.
Qed.

(** X22. At every dispatch entry point (the single-task trigger of either
    panel and the six grouped commands), when no picture path is set (no
    file was chosen yet) or the credential field is empty or white space
    only, the command returns having handed no request to the adapter and
    started no thread, and having shown exactly one error dialog; nothing
    else changes. *)
Theorem dispatch_blocked (c : M unit) (s : state) :
  entry_point c →
  image_missing s ∨ blank (api_entry s) →
  (c s).1 = Ok tt
  ∧ calls (c s).2 = calls s
  ∧ threads (c s).2 = threads s
  ∧ ∃ d, (d = missing_image_dialog ∨ d = missing_key_dialog)
         ∧ (c s).2 = with_dialogs (dialogs s ++ [d]) s.
Proof.
  intros Hc Hs.
  destruct (opt_truthy (reference_image_path s)) eqn:Hp.
  - destruct Hs as [Hs | Hk]; [unfold image_missing in Hs; congruence |].
    rewrite (entry_point_missing_key c s Hc); [| unfold image_missing; congruence | done].
    repeat split. exists missing_key_dialog. by split; [right |].
  - rewrite (entry_point_missing_image c s Hc Hp).
    repeat split. exists missing_image_dialog. by split; [left |].
Qed.

(** An instance: "generate everything" with a picture loaded and a key of
    white space only. *)
Lemma dispatch_blocked_witness :
  (Incity.generate_all_everything (with_api_entry [32; 9; 160]%N sample_state)).1 = Ok tt
  ∧ calls (Incity.generate_all_everything (with_api_entry [32; 9; 160]%N sample_state)).2 = []
  ∧ threads (Incity.generate_all_everything (with_api_entry [32; 9; 160]%N sample_state)).2 = []
  ∧ ∃ d, (d = missing_image_dialog ∨ d = missing_key_dialog)
         ∧ (Incity.generate_all_everything (with_api_entry [32; 9; 160]%N sample_state)).2
           = with_dialogs ([] ++ [d]) (with_api_entry [32; 9; 160]%N sample_state).
Proof.
  apply (dispatch_blocked Incity.generate_all_everything
           (with_api_entry [32; 9; 160]%N sample_state)).
  - constructor.
  - right. repeat constructor.
Defined.

(** X23. When no picture path is set and the credential field is empty,
    every dispatch entry point shows the missing-image dialog alone and
    returns.  With no path set the outcome is that same dialog whatever the
    credential field holds, and an entry point that shows the
    missing-credential dialog was started with a path set. *)
Theorem missing_image_reported_first (c : M unit) (s : state) :
  entry_point c →
  image_missing s →
  blank (api_entry s) →
  c s = (Ok tt, with_dialogs (dialogs s ++ [missing_image_dialog]) s)
  ∧ (∀ k, c (with_api_entry k s)
          = (Ok tt, with_dialogs (dialogs s ++ [missing_image_dialog]) (with_api_entry k s)))
  ∧ (∀ s', dialogs (c s').2 = dialogs s' ++ [missing_key_dialog] → ¬ image_missing s').
Proof.
  intros Hc Hp Hk. split; [by apply entry_point_missing_image |]. split.
  - intros k. by rewrite (entry_point_missing_image c (with_api_entry k s) Hc).
  - intros s' Hd Hs'. rewrite (entry_point_missing_image c s' Hc Hs') in Hd.
    simpl in Hd. by apply app_inv_head in Hd.
Qed.

(** An instance: a Lyon button on the panel as it starts. *)
Lemma missing_image_reported_first_witness :
  Lyon.trigger_generation "A_spring_day.png" "spring" fresh_state
  = (Ok tt, with_dialogs ([] ++ [missing_image_dialog]) fresh_state)
  ∧ (∀ k, Lyon.trigger_generation "A_spring_day.png" "spring" (with_api_entry k fresh_state)
          = (Ok tt, with_dialogs ([] ++ [missing_image_dialog]) (with_api_entry k fresh_state)))
  ∧ (∀ s', dialogs (Lyon.trigger_generation "A_spring_day.png" "spring" s').2
           = dialogs s' ++ [missing_key_dialog] → ¬ image_missing s').
Proof.
  apply (missing_image_reported_first (Lyon.trigger_generation "A_spring_day.png" "spring")
           fresh_state).
  - constructor.
  - reflexivity.
  - constructor.
Defined.

(** C2. On a panel that passes the two checks, each "generate all" command
    (weather day, easter day, easter night, night LED, full-moon LED) starts
    one thread per button of its group, with that button's file name and
    prompt, in the declared order and with no pair twice; "generate
    everything" starts the threads of the five groups one after the other,
    29 in all, again with no pair twice.  Equal lists are equal multisets. *)
Theorem batches_dispatch_their_groups (s : state) :
  ready s →
  (∀ g, threads (generate_all g s).2 = threads s ++ map Incity.task_of (members g)
        ∧ NoDup (map Incity.task_of (members g)))
  ∧ threads (Incity.generate_all_everything s).2
    = threads s ++ concat (map (λ g, map Incity.task_of (members g))
                               [WeatherDay; EasterDay; EasterNight; NightLed; FullmoonLed])
  ∧ NoDup (concat (map (λ g, map Incity.task_of (members g))
                       [WeatherDay; EasterDay; EasterNight; NightLed; FullmoonLed]))
  ∧ length (concat (map (λ g, map Incity.task_of (members g))
                        [WeatherDay; EasterDay; EasterNight; NightLed; FullmoonLed])) = 29.
Proof.
  intros Hs.
  assert (concat (map (λ g, map Incity.task_of (members g))
                      [WeatherDay; EasterDay; EasterNight; NightLed; FullmoonLed])
          = Incity.catalog) as -> by (by vm_compute).
  assert (NoDup Incity.catalog) as Hnd.
  { eapply (NoDup_fmap_1 fst). apply catalog_NoDup. }
  split; [| by rewrite generate_all_everything_ready].
  intros g. split; [by apply generate_all_ready |].
  rewrite catalog_groups in Hnd. rewrite members_configs.
  destruct g.
  - by apply NoDup_app in Hnd as (? & _).
  - apply NoDup_app in Hnd as (_ & _ & Hnd). by apply NoDup_app in Hnd as (? & _).
  - apply NoDup_app in Hnd as (_ & _ & Hnd). apply NoDup_app in Hnd as (_ & _ & Hnd).
    by apply NoDup_app in Hnd as (? & _).
  - do 3 apply NoDup_app in Hnd as (_ & _ & Hnd). by apply NoDup_app in Hnd as (? & _).
  - by do 4 apply NoDup_app in Hnd as (_ & _ & Hnd).
Qed.

(** An instance: the panel with a picture loaded and a key typed. *)
Lemma batches_dispatch_their_groups_witness :
  ready sample_state
  ∧ (∀ g, threads (generate_all g sample_state).2 = [] ++ map Incity.task_of (members g)
          ∧ NoDup (map Incity.task_of (members g)))
  ∧ threads (Incity.generate_all_everything sample_state).2
    = [] ++ concat (map (λ g, map Incity.task_of (members g))
                        [WeatherDay; EasterDay; EasterNight; NightLed; FullmoonLed])
  ∧ NoDup (concat (map (λ g, map Incity.task_of (members g))
                       [WeatherDay; EasterDay; EasterNight; NightLed; FullmoonLed]))
  ∧ length (concat (map (λ g, map Incity.task_of (members g))
                        [WeatherDay; EasterDay; EasterNight; NightLed; FullmoonLed])) = 29.
Proof.
  split; [split; reflexivity |].
  apply (batches_dispatch_their_groups sample_state).
  split; reflexivity.
Defined.

(** * What the commands leave alone *)

Section Preserves.
Context (R : relation state) `{!PreOrder R}.

Lemma preserves_ret {A} (a : A) : preserves R (mret a : M A).
Proof. intros s. reflexivity. Qed.

Lemma preserves_raise {A} (e : string) : preserves R (raise e : M A).
Proof. intros s. reflexivity. Qed.

Lemma preserves_gets {A} (f : state → A) : preserves R (gets f).
Proof. intros s. reflexivity. Qed.

Lemma preserves_lift {A} (r : result A) : preserves R (lift r).
Proof. intros s. reflexivity. Qed.

Lemma preserves_bind {A B} (m : M A) (k : A → M B) :
  preserves R m → (∀ a, preserves R (k a)) → preserves R (m ≫= k).
Proof.
  intros Hm Hk s. unfold mbind, M_bind.
  specialize (Hm s). destruct (m s) as [[a | e] s']; simpl in *; [| done].
  etrans; [exact Hm | apply Hk].
Qed.

Lemma preserves_try_except {A} (m : M A) (h : string → M A) :
  preserves R m → (∀ e, preserves R (h e)) → preserves R (try_except m h).
Proof.
  intros Hm Hh s. unfold try_except.
  specialize (Hm s). destruct (m s) as [[a | e] s']; simpl in *; [done |].
  etrans; [exact Hm | apply Hh].
Qed.
End Preserves.

Global Instance dirs_kept_preorder : PreOrder dirs_kept.
Proof. split; [by intros s q | intros s1 s2 s3 H12 H23 q Hq; auto]. Qed.

Global Instance same_calls_preorder : PreOrder same_calls.
Proof. split; [done | intros s1 s2 s3 H12 H23; unfold same_calls in *; congruence]. Qed.

(** Opening and writing, taken together: the file is there as a whole or
    nothing has changed. *)
Lemma write_bytes_eq (p : string) (b : bytes) (d : filesystem) :
  write_bytes p b d
  = match nodes d !! p with
    | Some Dir => Raise ("[Errno 21] Is a directory: '" +:+ p +:+ "'")
    | _ =>
        if read_only d then Raise ("[Errno 30] Read-only file system: '" +:+ p +:+ "'")
        else Ok (with_nodes (<[p := File b]> (nodes d)) d)
    end.
Proof.
  unfold write_bytes, open_wb, file_write.
  destruct (nodes d !! p) as [[]|], (read_only d); try done;
    simpl; unfold with_nodes; simpl; by rewrite insert_insert_eq.
Qed.

Lemma open_wb_error (p : string) (b : bytes) (d : filesystem) (e : string) :
  open_wb p d = Raise e → write_bytes p b d = Raise e.
Proof. unfold write_bytes. by intros ->. Qed.

Lemma write_bytes_writable (p : string) (b : bytes) (d : filesystem) :
  writable p d → write_bytes p b d = Ok (with_nodes (<[p := File b]> (nodes d)) d).
Proof.
  intros [Hn Hr]. rewrite write_bytes_eq, Hr.
  by destruct (nodes d !! p) as [[]|].
Qed.


Lemma makedirs_dirs (p : string) (d d' : filesystem) (q : string) :
  makedirs p d = Ok d' → is_dir q d → is_dir q d'.
Proof.
  unfold makedirs, is_dir. intros Hm Hq.
  destruct (nodes d !! p) as [[]|] eqn:Hp; simplify_eq; [done |].
  destruct (read_only d); simplify_eq. simpl.
  rewrite lookup_insert_ne; [done | congruence].
Qed.


Lemma makedirs_nodes (p : string) (d d' : filesystem) :
  makedirs p d = Ok d' → d' = with_nodes (<[p := Dir]> (nodes d)) d.
Proof.
  unfold makedirs. intros Hm.
  destruct (nodes d !! p) as [[]|] eqn:Hp; simplify_eq.
  - rewrite insert_id by done. by destruct d'.
  - by destruct (read_only d); simplify_eq.
Qed.

Lemma makedirs_files (p : string) (d d' : filesystem) (q : string) (b : bytes) :
  makedirs p d = Ok d' →
  nodes d' !! q = Some (File b) ↔ nodes d !! q = Some (File b).
Proof.
  intros Hm. pose proof Hm as ->%makedirs_nodes. simpl.
  destruct (decide (p = q)) as [<- | Hne]; [| by rewrite lookup_insert_ne].
  rewrite lookup_insert_eq. unfold makedirs in Hm.
  destruct (nodes d !! p) as [[]|]; naive_solver.
Qed.

(** A directory that cannot be made: a regular file is in the way, or the
    file system takes no new entry. *)
Lemma makedirs_raises (p : string) (d : filesystem) :
  (∃ e, makedirs p d = Raise e)
  ↔ (∃ b, nodes d !! p = Some (File b)) ∨ (nodes d !! p = None ∧ read_only d = true).
Proof.
  unfold makedirs.
  destruct (nodes d !! p) as [[|b]|], (read_only d); split;
    try (intros [e He]; discriminate He);
    try (intros [[b' Hb] | [Hn Hr]]; discriminate);
    eauto.
Qed.

Section Frames.
Context (ext : external).

Lemma log_dirs_kept (m : string) : preserves dirs_kept (log m).
Proof. by intros s q. Qed.

Lemma print_dirs_kept (r : response) : preserves dirs_kept (print r).
Proof. by intros s q. Qed.

Lemma call_dirs_kept (c : client ext) (rq : request) :
  preserves dirs_kept (call_generate_content ext c rq).
Proof. by intros s q. Qed.


Lemma os_makedirs_dirs_kept (p : string) : preserves dirs_kept (os_makedirs p).
Proof.
  intros s q Hq. unfold os_makedirs.
  destruct (makedirs p (disk s)) eqn:Hm; [| done].
  simpl. by eapply makedirs_dirs.
Qed.





Lemma log_same_calls (m : string) : preserves same_calls (log m).
Proof. by intros s. Qed.

Lemma print_same_calls (r : response) : preserves same_calls (print r).
Proof. by intros s. Qed.

Lemma open_write_same_calls (p : string) (b : bytes) : preserves same_calls (open_write p b).
Proof. intros s. unfold open_write. by destruct (write_bytes p b (disk s)). Qed.

Lemma os_makedirs_same_calls (p : string) : preserves same_calls (os_makedirs p).
Proof. intros s. unfold os_makedirs. by destruct (makedirs p (disk s)). Qed.

Lemma save_part_same_calls (path : string) (p : part) (saved : bool) :
  preserves same_calls (save_part ext path p saved).
Proof.
  unfold save_part. destruct (inline_data p); [| apply preserves_ret, _].
  apply preserves_bind; [apply _ | |].
  - apply preserves_try_except; [apply _ | | intros _; apply preserves_ret, _].
    unfold as_image_save. destruct (as_image p);
      [apply preserves_ret, _ | apply preserves_raise, _ |].
    apply preserves_bind; [apply _ | apply open_write_same_calls |].
    intros _. apply preserves_ret, _.
  - intros [|]; [apply preserves_ret, _ |].
    destruct (negb saved); [| apply preserves_ret, _].
    apply preserves_bind; [apply _ | apply preserves_lift, _ |].
    intros raw. apply preserves_bind; [apply _ | apply open_write_same_calls |].
    intros _. apply preserves_ret, _.
Qed.

Lemma save_response_same_calls (path : string) (r : response) :
  preserves same_calls (save_response ext path r).
Proof.
  unfold save_response. destruct (parts r) as [ps |]; [| apply preserves_ret, _].
  generalize false. induction ps as [|p ps IH]; intros saved; [apply preserves_ret, _ |].
  simpl. apply preserves_bind; [apply _ | apply save_part_same_calls |].
  intros [saved' []]; simpl; [apply IH | apply preserves_ret, _].
Qed.
End Frames.

(** * The background task, case by case *)

Lemma log_logged (m : string) (s : state) : log m s = (Ok tt, logged m s).
Proof. reflexivity. Qed.

Section Cases.
Context (ext : external).

Ltac task_start Hc :=
  cbv [Incity.generate_task Lyon.generate_task mbind M_bind gets]; rewrite Hc;
  try (unfold log at 1; unfold os_makedirs; cbn [disk with_log]).

(** The client cannot be built: one log entry, nothing else. *)
Lemma incity_task_no_client (f d : string) (s : state) (e : string) :
  Client ext (strip (api_entry s)) = Raise e →
  Incity.generate_task ext f d s = (Ok tt, logged ("Erreur Client: " +:+ e) s).
Proof. intros Hc. by task_start Hc. Qed.

(** The directory cannot be made: the exception leaves the task. *)
Lemma incity_task_no_dir (f d : string) (s : state) (c : client ext) (e : string) :
  Client ext (strip (api_entry s)) = Ok c →
  makedirs (Incity.output_dir (disk s)) (disk s) = Raise e →
  Incity.generate_task ext f d s
  = (Raise e, logged ("Génération: " +:+ f +:+ "...") s).
Proof. intros Hc Hm. task_start Hc. by rewrite Hm. Qed.

(** The adapter call raises. *)
Lemma incity_task_raise (f d : string) (s : state) (c : client ext) (d1 : filesystem)
    (e : string) :
  Client ext (strip (api_entry s)) = Ok c →
  makedirs (Incity.output_dir (disk s)) (disk s) = Ok d1 →
  generate_content ext c (incity_request d s) = Raise e →
  Incity.generate_task ext f d s
  = (Ok tt, logged ("ERREUR: " +:+ e) (incity_called f d d1 s)).
Proof.
  intros Hc Hm Hg. task_start Hc. rewrite Hm.
  unfold try_except, call_generate_content.
  change (generate_content ext c _) with (generate_content ext c (incity_request d s)).
  by rewrite Hg.
Qed.

(** The adapter call returns. *)
Lemma incity_task_answer (f d : string) (s : state) (c : client ext) (d1 : filesystem)
    (r : response) :
  Client ext (strip (api_entry s)) = Ok c →
  makedirs (Incity.output_dir (disk s)) (disk s) = Ok d1 →
  generate_content ext c (incity_request d s) = Ok r →
  Incity.generate_task ext f d s
  = incity_finish f r
      (save_response ext (os_path_join (Incity.output_dir (disk s)) f) r
         (incity_called f d d1 s)).
Proof.
  intros Hc Hm Hg. task_start Hc. rewrite Hm.
  unfold try_except, call_generate_content.
  change (generate_content ext c _) with (generate_content ext c (incity_request d s)).
  rewrite Hg.
  change (with_calls _ _) with (incity_called f d d1 s).
  by destruct (save_response _ _ _ _) as [[[|] | e] s3].
Qed.

Lemma lyon_task_no_client (f d : string) (s : state) (e : string) :
  Client ext (strip (api_entry s)) = Raise e →
  Lyon.generate_task ext f d s = (Ok tt, logged ("❌ Erreur Client: " +:+ e) s).
Proof. intros Hc. by task_start Hc. Qed.

Lemma lyon_task_no_dir (f d : string) (s : state) (c : client ext) (e : string) :
  Client ext (strip (api_entry s)) = Ok c →
  makedirs (Lyon.output_dir (disk s)) (disk s) = Raise e →
  Lyon.generate_task ext f d s
  = (Raise e, logged ("⏳ Gemini 3 Pro travaille sur : " +:+ f +:+ "...") s).
Proof. intros Hc Hm. task_start Hc. by rewrite Hm. Qed.

Lemma lyon_task_raise (f d : string) (s : state) (c : client ext) (d1 : filesystem)
    (e : string) :
  Client ext (strip (api_entry s)) = Ok c →
  makedirs (Lyon.output_dir (disk s)) (disk s) = Ok d1 →
  generate_content ext c (lyon_request d s) = Raise e →
  Lyon.generate_task ext f d s
  = (Ok tt, logged ("❌ ERREUR API : " +:+ e) (lyon_called f d d1 s)).
Proof.
  intros Hc Hm Hg. task_start Hc. rewrite Hm.
  unfold try_except, call_generate_content.
  change (generate_content ext c _) with (generate_content ext c (lyon_request d s)).
  by rewrite Hg.
Qed.

Lemma lyon_task_answer (f d : string) (s : state) (c : client ext) (d1 : filesystem)
    (r : response) :
  Client ext (strip (api_entry s)) = Ok c →
  makedirs (Lyon.output_dir (disk s)) (disk s) = Ok d1 →
  generate_content ext c (lyon_request d s) = Ok r →
  Lyon.generate_task ext f d s
  = lyon_finish f r
      (save_response ext (os_path_join (Lyon.output_dir (disk s)) f) r
         (lyon_called f d d1 s)).
Proof.
  intros Hc Hm Hg. task_start Hc. rewrite Hm.
  unfold try_except, call_generate_content.
  change (generate_content ext c _) with (generate_content ext c (lyon_request d s)).
  rewrite Hg.
  change (with_calls _ _) with (lyon_called f d d1 s).
  by destruct (save_response _ _ _ _) as [[[|] | e] s3].
Qed.

(** ** The loop over the parts *)

Lemma open_write_writable (path : string) (b : bytes) (s : state) :
  writable path (disk s) → open_write path b s = (Ok tt, stored path b s).
Proof. intros Hw. unfold open_write. by rewrite write_bytes_writable. Qed.

(** Parts without inline data are passed over. *)
Lemma save_parts_no_image (path : string) (ps : list part) (saved : bool) (s : state) :
  Forall (λ q, inline_data q = None) ps →
  save_parts ext path ps saved s = (Ok saved, s).
Proof.
  induction 1 as [|p ps Hp _ IH]; [done |].
  simpl. unfold mbind, M_bind, save_part. rewrite Hp. simpl. apply IH.
Qed.

Lemma save_response_no_image (path : string) (r : response) (s : state) :
  no_image_data r → save_response ext path r s = (Ok false, s).
Proof.
  unfold no_image_data, save_response. destruct (parts r); [| done].
  apply save_parts_no_image.
Qed.

(** The raw save: the accessor is of no use and nothing is saved yet. *)
Lemma save_part_raw (path : string) (p : part) (blob : Blob) (b : bytes) (s : state) :
  inline_data p = Some blob →
  accessor_unusable p →
  img_data ext (data blob) = Ok b →
  writable path (disk s) →
  save_part ext path p false s = (Ok (true, Next), stored path b s).
Proof.
  intros Hi Ha Hd Hw. unfold save_part. rewrite Hi.
  unfold mbind, M_bind, try_except, as_image_save.
  destruct Ha as [-> | ->]; simpl; unfold lift; rewrite Hd;
    by rewrite open_write_writable.
Qed.

(** What a part carries is what [img_data] makes of its inline data. *)
Lemma carries_img_data (p : part) (b : bytes) :
  carries ext p b →
  (∃ blob, inline_data p = Some blob ∧ img_data ext (data blob) = Ok b)
  ∧ ∀ b', as_image p = AccessorImage b' → b' = b.
Proof.
  intros [(blob & Hi & Hd) Ha]. split; [| done].
  exists blob. split; [done |]. destruct (data blob); simpl; [done | by subst].
Qed.

(** The part that carries [b] leaves [b] in the file, by either way. *)
Lemma save_part_carries (path : string) (p : part) (b : bytes) (s : state) :
  carries ext p b →
  writable path (disk s) →
  (accessor_unusable p ∧ save_part ext path p false s = (Ok (true, Next), stored path b s))
  ∨ save_part ext path p false s = (Ok (true, Break), stored path b s).
Proof.
  intros [(blob & Hi & Hd) Ha]%carries_img_data Hw.
  destruct (as_image p) as [| | b'] eqn:Hacc.
  - left. split; [by left |]. by apply (save_part_raw path p blob); [| left | |].
  - left. split; [by right |]. by apply (save_part_raw path p blob); [| right | |].
  - right. rewrite (Ha b' eq_refl) in Hacc.
    unfold save_part. rewrite Hi.
    unfold mbind, M_bind, try_except, as_image_save. rewrite Hacc.
    unfold mbind, M_bind. by rewrite open_write_writable.
Qed.

(** Once an image is saved, parts whose accessor is of no use change
    nothing. *)
Lemma save_parts_saved (path : string) (ps : list part) (s : state) :
  Forall (λ q, inline_data q = None ∨ accessor_unusable q) ps →
  save_parts ext path ps true s = (Ok true, s).
Proof.
  induction 1 as [|q ps Hq _ IH]; [done |].
  simpl. unfold mbind, M_bind, save_part at 1.
  destruct (inline_data q) as [blob |]; [| simpl; apply IH].
  destruct Hq as [Hq | Hq]; [done |].
  unfold mbind, M_bind, try_except, as_image_save.
  destruct Hq as [-> | ->]; simpl; apply IH.
Qed.

Lemma save_parts_first_image (path : string) (ps : list part) (p : part) (b : bytes)
    (s : state) :
  first_image ps p →
  carries ext p b →
  writable path (disk s) →
  save_parts ext path ps false s = (Ok true, stored path b s).
Proof.
  intros (pre & post & -> & Hpre & Hpost) Hp Hw.
  induction Hpre as [|q pre Hq _ IH].
  - simpl. unfold mbind, M_bind.
    destruct (save_part_carries path p b s Hp Hw) as [[Hu ->] | ->]; simpl; [| done].
    by apply save_parts_saved, Hpost.
  - simpl. unfold mbind, M_bind, save_part at 1. rewrite Hq. simpl. apply IH.
Qed.
End Cases.

(** * The two programs at once *)

Section Run.
Context (g : program) (ext : external).

Lemma run_task_no_client (f d : string) (s : state) (e : string) :
  Client ext (strip (api_entry s)) = Raise e →
  (run_task g ext f d s).1 = Ok tt
  ∧ disk (run_task g ext f d s).2 = disk s
  ∧ calls (run_task g ext f d s).2 = calls s.
Proof.
  intros Hc. destruct g; simpl.
  - by rewrite (incity_task_no_client ext f d s e Hc).
  - by rewrite (lyon_task_no_client ext f d s e Hc).
Qed.


Lemma run_task_no_dir (f d : string) (s : state) (c : client ext) (e : string) :
  Client ext (strip (api_entry s)) = Ok c →
  makedirs (output_dir_of g (disk s)) (disk s) = Raise e →
  (run_task g ext f d s).1 = Raise e
  ∧ log_box (run_task g ext f d s).2 = log_box s ++ [progress_entry g f]
  ∧ disk (run_task g ext f d s).2 = disk s
  ∧ calls (run_task g ext f d s).2 = calls s.
Proof.
  intros Hc Hm. destruct g; simpl in *.
  - by rewrite (incity_task_no_dir ext f d s c e Hc Hm).
  - by rewrite (lyon_task_no_dir ext f d s c e Hc Hm).
Qed.

Lemma run_task_raise (f d : string) (s : state) (c : client ext) (d1 : filesystem)
    (e : string) :
  Client ext (strip (api_entry s)) = Ok c →
  makedirs (output_dir_of g (disk s)) (disk s) = Ok d1 →
  generate_content ext c (request_of g d s) = Raise e →
  (run_task g ext f d s).1 = Ok tt
  ∧ log_box (run_task g ext f d s).2
    = log_box s ++ [progress_entry g f; failure_entry g f (Raise e)]
  ∧ disk (run_task g ext f d s).2 = d1
  ∧ calls (run_task g ext f d s).2 = calls s ++ [request_of g d s].
Proof.
  intros Hc Hm Hg. destruct g; simpl in *.
  - rewrite (incity_task_raise ext f d s c d1 e Hc Hm Hg). simpl.
    by rewrite <- app_assoc.
  - rewrite (lyon_task_raise ext f d s c d1 e Hc Hm Hg). simpl.
    by rewrite <- app_assoc.
Qed.

Lemma run_task_answer (f d : string) (s : state) (c : client ext) (d1 : filesystem)
    (r : response) :
  Client ext (strip (api_entry s)) = Ok c →
  makedirs (output_dir_of g (disk s)) (disk s) = Ok d1 →
  generate_content ext c (request_of g d s) = Ok r →
  run_task g ext f d s
  = finish g f r (save_response ext (os_path_join (output_dir_of g (disk s)) f) r
                    (called g f d d1 s)).
Proof.
  intros Hc Hm Hg. destruct g; simpl in *.
  - by apply (incity_task_answer ext f d s c d1 r).
  - by apply (lyon_task_answer ext f d s c d1 r).
Qed.

Lemma called_fields (f d : string) (d1 : filesystem) (s : state) :
  disk (called g f d d1 s) = d1
  ∧ calls (called g f d d1 s) = calls s ++ [request_of g d s]
  ∧ log_box (called g f d d1 s) = log_box s ++ [progress_entry g f]
  ∧ console (called g f d d1 s) = console s.
Proof. by destruct g. Qed.

(** The end of the task never raises and leaves disk and requests alone. *)
Lemma finish_fields (f : string) (r : response) (o : result bool * state) :
  (finish g f r o).1 = Ok tt
  ∧ disk (finish g f r o).2 = disk o.2
  ∧ calls (finish g f r o).2 = calls o.2.
Proof. by destruct g, o as [[[|] | e] s]. Qed.

Lemma finish_saved (f : string) (r : response) (s : state) :
  finish g f r (Ok true, s) = (Ok tt, with_log (log_box s ++ [success_entry g f]) s).
Proof. by destruct g. Qed.

Lemma finish_unsaved (f : string) (r : response) (s : state) :
  finish g f r (Ok false, s)
  = (Ok tt, with_console (console s ++ [r])
              (with_log (log_box s ++ [failure_entry g f (Ok r)]) s)).
Proof. by destruct g. Qed.

Lemma final_path_of (d : filesystem) (f : string) :
  startswith_sep f = false →
  os_path_join (output_dir_of g d) f = output_dir_of g d +:+ "/" +:+ f
  ∧ os_path_join (output_dir_of g d) f ≠ output_dir_of g d.
Proof. destruct g; [apply incity_final_path | apply lyon_final_path]. Qed.

(** Every run hands over no request, or the one request of its task. *)
Lemma run_task_submitted (f d : string) (s : state) :
  submitted (run_task g ext f d) s = []
  ∨ submitted (run_task g ext f d) s = [request_of g d s].
Proof.
  unfold submitted.
  destruct (Client ext (strip (api_entry s))) as [c | e] eqn:Hc.
  2: { left. destruct (run_task_no_client f d s e Hc) as (_ & _ & ->). apply drop_all. }
  destruct (makedirs (output_dir_of g (disk s)) (disk s)) as [d1 | e] eqn:Hm.
  2: { left. destruct (run_task_no_dir f d s c e Hc Hm) as (_ & _ & _ & ->). apply drop_all. }
  right.
  destruct (generate_content ext c (request_of g d s)) as [r | e] eqn:Hg.
  - rewrite (run_task_answer f d s c d1 r Hc Hm Hg).
    destruct (finish_fields f r
                (save_response ext (os_path_join (output_dir_of g (disk s)) f) r
                   (called g f d d1 s))) as (_ & _ & ->).
    rewrite (save_response_same_calls ext _ r (called g f d d1 s)).
    destruct (called_fields f d d1 s) as (_ & -> & _).
    by rewrite drop_app_length.
  - destruct (run_task_raise f d s c d1 e Hc Hm Hg) as (_ & _ & _ & ->).
    by rewrite drop_app_length.
Qed.


(** Once the directory is made the task returns, whatever the adapter and
    the file system do afterwards. *)
Lemma run_task_returns (f d : string) (s : state) (d1 : filesystem) :
  makedirs (output_dir_of g (disk s)) (disk s) = Ok d1 →
  (run_task g ext f d s).1 = Ok tt.
Proof.
  intros Hm.
  destruct (Client ext (strip (api_entry s))) as [c | e] eqn:Hc.
  2: { by destruct (run_task_no_client f d s e Hc) as (-> & _). }
  destruct (generate_content ext c (request_of g d s)) as [r | e] eqn:Hg.
  - rewrite (run_task_answer f d s c d1 r Hc Hm Hg). apply finish_fields.
  - by destruct (run_task_raise f d s c d1 e Hc Hm Hg) as (-> & _).
Qed.
End Run.

(** * The composed prompt *)

Lemma includes_here (c b : string) : includes c (c +:+ b).
Proof. by exists "", b. Qed.

Lemma includes_end (c : string) : includes c c.
Proof. exists "", "". rewrite append_nil. clear. induction c as [|x c IH]; [done |].
  rewrite append_cons. by rewrite <- IH. Qed.

Lemma includes_later (x c s : string) : includes c s → includes c (x +:+ s).
Proof. intros (a & b & ->). exists (x +:+ a), b. by rewrite append_assoc. Qed.

Ltac find_clause :=
  repeat first [apply includes_here | apply includes_end | apply includes_later].

Lemma base_prompt_shape (g : program) (d : string) :
  base_prompt_of g d
  = opening_of g +:+ d +:+ ". " +:+ String.concat "" (preservation_of g).
Proof.
  destruct g; simpl; unfold Incity.base_prompt, Lyon.base_prompt;
    rewrite append_assoc; reflexivity.
Qed.

Lemma base_prompt_includes (g : program) (d : string) :
  Forall (λ c, includes c (base_prompt_of g d)) (preservation_of g).
Proof.
  destruct g; simpl; unfold Incity.base_prompt, Lyon.base_prompt;
    repeat apply Forall_cons_2; try apply Forall_nil_2; find_clause.
Qed.

(** C1. Whatever fragment is put into the template, in either program,
    the prompt handed to the generation client is the fixed opening
    sentence, the fragment, and then the preservation clauses (keep the same
    geometry, camera angle and style; change only the listed attributes): it
    starts with the fixed opening and includes every preservation clause.
    This holds for every request a task run submits, hence for every
    catalog task. *)
Theorem composed_prompt_keeps_scene (g : program) (ext : external) (f d : string)
    (s : state) :
  Forall (λ rq, (contents rq).1 = base_prompt_of g d) (submitted (run_task g ext f d) s)
  ∧ base_prompt_of g d
    = opening_of g +:+ d +:+ ". " +:+ String.concat "" (preservation_of g)
  ∧ String.prefix (opening_of g) (base_prompt_of g d) = true
  ∧ Forall (λ c, includes c (base_prompt_of g d)) (preservation_of g).
Proof.
  split; [| split; [apply base_prompt_shape | split; [| apply base_prompt_includes]]].
  - destruct (run_task_submitted g ext f d s) as [-> | ->]; [constructor |].
    apply Forall_cons_2; [| constructor]. destruct g; reflexivity.
  - rewrite base_prompt_shape. apply prefix_append.
Qed.

(** The preservation clauses come after the fragment: none of them is a
    prefix of the prompt. *)
Lemma preservation_not_prefix (g : program) (d : string) :
  Forall (λ c, String.prefix c (base_prompt_of g d) = false) (preservation_of g).
Proof.
  rewrite base_prompt_shape.
  destruct g; simpl; unfold Incity.opening, Lyon.opening; rewrite append_cons;
    repeat apply Forall_cons_2; try apply Forall_nil_2; reflexivity.
Qed.

(** * The result sink *)

Lemma makedirs_free (p : string) (d : filesystem) :
  (∀ raw, nodes d !! p ≠ Some (File raw)) →
  read_only d = false →
  makedirs p d = Ok (with_nodes (<[p := Dir]> (nodes d)) d).
Proof.
  intros Hf Hr. unfold makedirs. rewrite Hr.
  destruct (nodes d !! p) as [[|raw]|] eqn:Hp; [| by destruct (Hf raw) | done].
  rewrite insert_id by done. by destruct d.
Qed.

Lemma emitted_app {A} (c : M A) (s : state) (l : list string) :
  log_box (c s).2 = log_box s ++ l → emitted c s = l.
Proof. unfold emitted. intros ->. by rewrite drop_app_length. Qed.

(** C4. In either program, for every task T of the catalog: when the
    adapter call of T returns a response whose first image part carries the
    bytes [b] (as bytes, as base64 text of them, or through its accessor),
    and the output directory and the file can be written, the run returns
    normally and the disk differs from the one it started from exactly by
    the output directory and by one file, [output directory/T's file name],
    whose content is [b]; the log gains the progress and the success
    entry. *)
Theorem stored_image_is_adapter_bytes (g : program) (ext : external) (f d : string)
    (s : state) (c : client ext) (ps : list part) (p : part) (b : bytes) :
  (f, d) ∈ catalog_of g →
  Client ext (strip (api_entry s)) = Ok c →
  generate_content ext c (request_of g d s) = Ok {| parts := Some ps |} →
  first_image ps p →
  carries ext p b →
  read_only (disk s) = false →
  (∀ raw, nodes (disk s) !! output_dir_of g (disk s) ≠ Some (File raw)) →
  nodes (disk s) !! (output_dir_of g (disk s) +:+ "/" +:+ f) ≠ Some Dir →
  (run_task g ext f d s).1 = Ok tt
  ∧ nodes (disk (run_task g ext f d s).2)
    = <[output_dir_of g (disk s) +:+ "/" +:+ f := File b]>
        (<[output_dir_of g (disk s) := Dir]> (nodes (disk s)))
  ∧ emitted (run_task g ext f d) s = [progress_entry g f; success_entry g f].
Proof.
  intros Ht Hc Hg Hps Hp Hr Hout Hfile.
  assert (startswith_sep f = false) as Hf.
  { pose proof (catalog_relative g) as Hall. rewrite Forall_forall in Hall.
    apply (Hall (f, d) Ht). }
  pose proof (makedirs_free _ _ Hout Hr) as Hm.
  destruct (final_path_of g (disk s) f Hf) as [Hpath Hne].
  set (d1 := with_nodes (<[output_dir_of g (disk s) := Dir]> (nodes (disk s))) (disk s)) in *.
  destruct (called_fields g f d d1 s) as (Hd & _ & Hl & _).
  assert (writable (os_path_join (output_dir_of g (disk s)) f) (disk (called g f d d1 s)))
    as Hw.
  { rewrite Hd. split; [| done]. subst d1. cbn [nodes with_nodes].
    rewrite lookup_insert_ne by done. by rewrite Hpath. }
  pose proof (run_task_answer g ext f d s c d1 _ Hc Hm Hg) as Hrun.
  unfold save_response in Hrun. cbn [parts] in Hrun.
  rewrite (save_parts_first_image ext _ ps p b _ Hps Hp Hw), finish_saved in Hrun.
  split; [by rewrite Hrun |]. split.
  - rewrite Hrun. cbn [snd disk with_log stored with_disk]. rewrite Hd.
    subst d1. cbn [nodes with_nodes]. by rewrite Hpath.
  - apply emitted_app. rewrite Hrun. cbn [snd log_box with_log stored with_disk].
    rewrite Hl. by rewrite <- app_assoc.
Qed.

(** An instance: the rain task of Incity, answered by a text part and an
    image part whose data is the base64 text [UE5HLTE=] of the five bytes
    [PNG-1]. *)
Lemma stored_image_is_adapter_bytes_witness :
  (run_task IncityGenerator
     (scripted (Ok {| parts := Some [plain_part; text_part "UE5HLTE="] |}))
     rain_task.1 rain_task.2 sample_state).1 = Ok tt
  ∧ nodes (disk (run_task IncityGenerator
                   (scripted (Ok {| parts := Some [plain_part; text_part "UE5HLTE="] |}))
                   rain_task.1 rain_task.2 sample_state).2)
    = <[output_dir_of IncityGenerator (disk sample_state) +:+ "/" +:+ rain_task.1
          := File png]>
        (<[output_dir_of IncityGenerator (disk sample_state) := Dir]>
           (nodes (disk sample_state)))
  ∧ emitted (run_task IncityGenerator
               (scripted (Ok {| parts := Some [plain_part; text_part "UE5HLTE="] |}))
               rain_task.1 rain_task.2) sample_state
    = [progress_entry IncityGenerator rain_task.1;
       success_entry IncityGenerator rain_task.1].
Proof.
  apply (stored_image_is_adapter_bytes IncityGenerator
           (scripted (Ok {| parts := Some [plain_part; text_part "UE5HLTE="] |}))
           rain_task.1 rain_task.2 sample_state tt
           [plain_part; text_part "UE5HLTE="] (text_part "UE5HLTE=") png).
  - apply (bool_decide_unpack _). vm_compute. exact I.
  - reflexivity.
  - reflexivity.
  - exists [plain_part], []. split; [done |]. split; [by repeat constructor | by intros _].
  - split; [by exists {| data := DataStr "UE5HLTE=" |} | intros b' Hb'; discriminate Hb'].
  - reflexivity.
  - intros raw. vm_compute. discriminate.
  - vm_compute. discriminate.
Defined.

(** C5, as stated, fails: when the adapter call of the Incity task for
    [incity_rain_day.png] raises "503 UNAVAILABLE", the log gains the
    progress entry and the entry "ERREUR: 503 UNAVAILABLE"; no entry gives
    both the file name and the failure description. *)
Lemma failure_entry_omits_filename :
  emitted (Incity.generate_task (scripted (Raise "503 UNAVAILABLE"))
             "incity_rain_day.png" "Rainy weather") sample_state
  = [entry "Génération: incity_rain_day.png..."; entry "ERREUR: 503 UNAVAILABLE"]
  ∧ length (List.filter (names_failure "incity_rain_day.png" "503 UNAVAILABLE")
              (emitted (Incity.generate_task (scripted (Raise "503 UNAVAILABLE"))
                          "incity_rain_day.png" "Rainy weather") sample_state))
    ≠ 1.
Proof. split; [by vm_compute | vm_compute; discriminate]. Qed.

(** C5, amended. In either program, when the adapter call of task T raises
    or returns a response with no image data, the run returns normally, no
    file is written (the disk is as the directory creation left it) and the
    log gains exactly two entries: the progress entry, which names T's file,
    and one failure entry.  The failure entry gives the failure description
    when the call raised; otherwise it is the no-image text, followed by T's
    file name in the Incity program only. *)
Theorem fruitless_task_writes_nothing (g : program) (ext : external) (f d : string)
    (s : state) (c : client ext) (d1 : filesystem) :
  Client ext (strip (api_entry s)) = Ok c →
  makedirs (output_dir_of g (disk s)) (disk s) = Ok d1 →
  fruitless (generate_content ext c (request_of g d s)) →
  (run_task g ext f d s).1 = Ok tt
  ∧ disk (run_task g ext f d s).2 = d1
  ∧ (∀ q raw, nodes (disk (run_task g ext f d s).2) !! q = Some (File raw)
              ↔ nodes (disk s) !! q = Some (File raw))
  ∧ emitted (run_task g ext f d) s
    = [progress_entry g f; failure_entry g f (generate_content ext c (request_of g d s))].
Proof.
  intros Hc Hm Hfr.
  assert ((run_task g ext f d s).1 = Ok tt
          ∧ disk (run_task g ext f d s).2 = d1
          ∧ log_box (run_task g ext f d s).2
            = log_box s ++ [progress_entry g f;
                            failure_entry g f (generate_content ext c (request_of g d s))])
    as (H1 & H2 & H3).
  { destruct (generate_content ext c (request_of g d s)) as [r | e] eqn:He.
    2: { by destruct (run_task_raise g ext f d s c d1 e Hc Hm He) as (? & ? & ? & _). }
    assert (no_image_data r) as Hr by (by inversion Hfr).
    rewrite (run_task_answer g ext f d s c d1 r Hc Hm He).
    rewrite save_response_no_image by done. rewrite finish_unsaved.
    destruct (called_fields g f d d1 s) as (Hd & _ & Hl & _).
    cbn [fst snd disk log_box with_console with_log].
    rewrite Hd, Hl. by rewrite <- app_assoc. }
  split; [done |]. split; [done |]. split; [| by apply emitted_app].
  intros q raw. rewrite H2. by apply (makedirs_files (output_dir_of g (disk s))).
Qed.

(** An instance: Lyon's snow task answered by a single text part. *)
Lemma fruitless_task_writes_nothing_witness :
  (run_task LyonGenerator (scripted (Ok {| parts := Some [plain_part] |}))
     "D_snow_day.png" "heavy snow" sample_state).1 = Ok tt
  ∧ disk (run_task LyonGenerator (scripted (Ok {| parts := Some [plain_part] |}))
            "D_snow_day.png" "heavy snow" sample_state).2
    = with_nodes {[ "/home/lea/output_lyon_gemini3" := Dir ]} sample_disk
  ∧ (∀ q raw,
       nodes (disk (run_task LyonGenerator
                      (scripted (Ok {| parts := Some [plain_part] |}))
                      "D_snow_day.png" "heavy snow" sample_state).2) !! q = Some (File raw)
       ↔ nodes (disk sample_state) !! q = Some (File raw))
  ∧ emitted (run_task LyonGenerator (scripted (Ok {| parts := Some [plain_part] |}))
               "D_snow_day.png" "heavy snow") sample_state
    = [progress_entry LyonGenerator "D_snow_day.png";
       failure_entry LyonGenerator "D_snow_day.png" (Ok {| parts := Some [plain_part] |})].
Proof.
  apply (fruitless_task_writes_nothing LyonGenerator
           (scripted (Ok {| parts := Some [plain_part] |}))
           "D_snow_day.png" "heavy snow" sample_state tt).
  - reflexivity.
  - reflexivity.
  - apply fruitless_empty. repeat constructor.
Defined.

(** C6, the failing run.  A regular file named [output_incity] sits in the
    working directory.  The Incity task makes its progress entry, then
    [os.makedirs] raises outside of any [try]: the exception leaves
    [generate_task], no failure entry is made and the adapter is not
    called.  The Lyon task does the same with [output_lyon_gemini3] on a
    file system that takes no new entry. *)
Theorem makedirs_failure_escapes :
  Incity.generate_task (scripted (Ok {| parts := Some [bytes_part png] |}))
    "incity_rain_day.png" "Rainy weather" occupied_state
  = (Raise "[Errno 17] File exists: '/home/lea/output_incity'",
     logged "Génération: incity_rain_day.png..." occupied_state)
  ∧ (Lyon.generate_task (scripted (Ok {| parts := Some [bytes_part png] |}))
       "D_snow_day.png" "heavy snow"
       (with_disk (mkFs "/home/lea" ∅ true) sample_state)).1
    = Raise "[Errno 30] Read-only file system: '/home/lea/output_lyon_gemini3'".
Proof. split; by vm_compute. Qed.

(** Whenever the directory cannot be made, the exception leaves the task. *)
Lemma run_task_escapes (g : program) (ext : external) (f d : string) (s : state)
    (c : client ext) (e : string) :
  Client ext (strip (api_entry s)) = Ok c →
  makedirs (output_dir_of g (disk s)) (disk s) = Raise e →
  (run_task g ext f d s).1 = Raise e
  ∧ emitted (run_task g ext f d) s = [progress_entry g f].
Proof.
  intros Hc Hm.
  destruct (run_task_no_dir g ext f d s c e Hc Hm) as (H1 & H2 & _).
  split; [done | by apply emitted_app].
Qed.




(** C10. In the raw save (the part has inline data, its image accessor is
    missing or raises, and nothing was saved before), inline data that is
    text is base64-decoded and the decoded bytes are written to the output
    file; inline data that is a byte sequence is written as it is. *)
Theorem raw_save_decodes_text_keeps_bytes (ext : external) (path : string) (p : part)
    (blob : Blob) (b : bytes) (s : state) :
  inline_data p = Some blob →
  accessor_unusable p →
  writable path (disk s) →
  match data blob with
  | DataStr text => b64decode ext text = Ok b
  | DataBytes raw => raw = b
  end →
  save_part ext path p false s = (Ok (true, Next), stored path b s)
  ∧ nodes (disk (stored path b s)) !! path = Some (File b).
Proof.
  intros Hi Ha Hw Hd. split.
  - apply (save_part_raw ext path p blob b s Hi Ha); [| done].
    destruct (data blob); simpl; [done | by subst].
  - simpl. apply lookup_insert_eq.
Qed.

(** An instance: the text [UE5HLTE=] is stored as the five bytes [PNG-1]. *)
Lemma raw_save_decodes_text_keeps_bytes_witness :
  save_part (scripted (Raise "")) "/home/lea/output_incity/incity_rain_day.png"
    (text_part "UE5HLTE=") false sample_state
  = (Ok (true, Next), stored "/home/lea/output_incity/incity_rain_day.png" png sample_state)
  ∧ nodes (disk (stored "/home/lea/output_incity/incity_rain_day.png" png sample_state))
      !! "/home/lea/output_incity/incity_rain_day.png" = Some (File png).
Proof.
  apply (raw_save_decodes_text_keeps_bytes (scripted (Raise ""))
           "/home/lea/output_incity/incity_rain_day.png" (text_part "UE5HLTE=")
           {| data := DataStr "UE5HLTE=" |} png sample_state).
  - reflexivity.
  - right. reflexivity.
  - split; [vm_compute; discriminate | reflexivity].
  - reflexivity.
Defined.

(** * Loading the reference picture *)

Section Loading.
Context (g : program) (ui : desktop).

Ltac load_start :=
  destruct g; simpl;
  cbv [Incity.load_image Lyon.load_image try_except mbind M_bind lift].

(** The dialog was cancelled. *)
Lemma load_image_cancelled (s : state) :
  askopenfilename ui = Ok "" → load_image_of g ui s = (Ok tt, s).
Proof. intros Ha. load_start; by rewrite Ha. Qed.

(** The dialog itself raised. *)
Lemma load_image_no_dialog (s : state) (e : string) :
  askopenfilename ui = Raise e →
  load_image_of g ui s = (Ok tt, logged ("ERREUR CHARGEMENT: " +:+ e) s).
Proof. intros Ha. load_start; by rewrite Ha. Qed.

(** The chosen file does not decode. *)
Lemma load_image_undecoded (s : state) (p e : string) :
  askopenfilename ui = Ok p → str_truthy p = true → image_open ui p = Raise e →
  load_image_of g ui s
  = (Ok tt, logged ("ERREUR CHARGEMENT: " +:+ e) (with_reference_image_path (Some p) s)).
Proof.
  intros Ha Hp Ho. load_start; rewrite Ha, Hp; cbn [negb];
    unfold set_reference_image_path; by rewrite Ho.
Qed.

(** The chosen file decodes; the preview may still fail. *)
Lemma load_image_decoded (s : state) (p : string) (image : Image) :
  askopenfilename ui = Ok p → str_truthy p = true → image_open ui p = Ok image →
  load_image_of g ui s
  = (Ok tt,
     let s' := with_pil_image (Some image) (with_reference_image_path (Some p) s) in
     match g, (height image =? 0)%N, show_preview ui image with
     | LyonGenerator, true, _ => logged "ERREUR CHARGEMENT: division by zero" s'
     | _, _, Raise e => logged ("ERREUR CHARGEMENT: " +:+ e) s'
     | _, _, Ok _ => logged ("Image chargée : " +:+ basename p) s'
     end).
Proof.
  intros Ha Hp Ho. load_start; rewrite Ha, Hp; cbn [negb];
    unfold set_reference_image_path; rewrite Ho; unfold set_pil_image.
  - by destruct (show_preview ui image) as [[] | e].
  - destruct (height image =? 0)%N; [done |].
    by destruct (show_preview ui image) as [[] | e].
Qed.

(** In every case: what [load_image] does to the state. *)
Lemma load_image_cases (s : state) :
  ∃ m, (load_image_of g ui s = (Ok tt, s)
        ∨ load_image_of g ui s = (Ok tt, logged m s)
        ∨ (∃ p, str_truthy p = true
             ∧ load_image_of g ui s = (Ok tt, logged m (with_reference_image_path (Some p) s)))
        ∨ (∃ p image, str_truthy p = true
             ∧ load_image_of g ui s
               = (Ok tt, logged m (with_pil_image (Some image)
                                     (with_reference_image_path (Some p) s))))).
Proof.
  destruct (askopenfilename ui) as [p | e] eqn:Ha.
  2: { eexists. right. left. by apply load_image_no_dialog. }
  destruct (str_truthy p) eqn:Hp.
  2: { exists "". left. apply load_image_cancelled. by destruct p. }
  destruct (image_open ui p) as [image | e] eqn:Ho.
  2: { eexists. right. right. left. exists p. split; [done |].
       by apply load_image_undecoded. }
  rewrite (load_image_decoded s p image Ha Hp Ho).
  destruct g, (height image =? 0)%N, (show_preview ui image);
    eexists; right; right; right; exists p, image; (split; [done | reflexivity]).
Qed.
End Loading.

(** X1. [load_image] never raises and acts on nothing but the path, the picture
    and the log, to which it adds at most one entry at the end. *)
Theorem load_image_contained (g : program) (ui : desktop) (s : state) :
  (load_image_of g ui s).1 = Ok tt
  ∧ api_entry (load_image_of g ui s).2 = api_entry s
  ∧ dialogs (load_image_of g ui s).2 = dialogs s
  ∧ threads (load_image_of g ui s).2 = threads s
  ∧ disk (load_image_of g ui s).2 = disk s
  ∧ calls (load_image_of g ui s).2 = calls s
  ∧ console (load_image_of g ui s).2 = console s
  ∧ (emitted (load_image_of g ui) s = []
     ∨ ∃ line, emitted (load_image_of g ui) s = [line]).
Proof.
  unfold emitted.
  destruct (load_image_cases g ui s) as (m & [-> | [-> | [(p & _ & ->) | (p & i & _ & ->)]]]);
    simpl; repeat split; try (left; apply drop_all);
    right; eexists; by rewrite drop_app_length.
Qed.

(** X2. Cancelling the file dialog leaves the panel as it was: no entry in the
    log, and a picture loaded before stays loaded. *)
Theorem load_image_cancel_keeps_all (g : program) (ui : desktop) (s : state) :
  askopenfilename ui = Ok "" →
  load_image_of g ui s = (Ok tt, s).
Proof. apply load_image_cancelled. Qed.

(** An instance: cancelling on the panel with a picture loaded. *)
Lemma load_image_cancel_keeps_all_witness :
  load_image_of LyonGenerator (picking "" (Raise "")) sample_state = (Ok tt, sample_state).
Proof.
  apply (load_image_cancel_keeps_all LyonGenerator (picking "" (Raise "")) sample_state).
  reflexivity.
Defined.

(** X3. When the chosen file decodes and the preview is shown (in Lyon the
    picture must have a height other than zero), the path and the picture
    are both replaced, one entry naming the file without its directory is
    logged, and the first check of the buttons is passed from then on. *)
Theorem load_image_loads (g : program) (ui : desktop) (s : state) (p : string)
    (image : Image) :
  askopenfilename ui = Ok p →
  str_truthy p = true →
  image_open ui p = Ok image →
  show_preview ui image = Ok tt →
  previewable g image →
  load_image_of g ui s
  = (Ok tt, logged ("Image chargée : " +:+ basename p)
              (with_pil_image (Some image) (with_reference_image_path (Some p) s)))
  ∧ ¬ image_missing (load_image_of g ui s).2.
Proof.
  intros Ha Hp Ho Hs Hg.
  rewrite (load_image_decoded g ui s p image Ha Hp Ho), Hs.
  assert (match g with LyonGenerator => (height image =? 0)%N = false | _ => True end) as Hh.
  { destruct g; [done |]. by apply N.eqb_neq. }
  unfold image_missing.
  destruct g; [| rewrite Hh]; simpl; rewrite Hp; by split.
Qed.

(** An instance: [/home/lea/incity.png] is picked on the panel as it starts. *)
Lemma load_image_loads_witness :
  load_image_of LyonGenerator (picking "/home/lea/incity.png" (Ok pixel)) fresh_state
  = (Ok tt, logged ("Image chargée : " +:+ basename "/home/lea/incity.png")
              (with_pil_image (Some pixel)
                 (with_reference_image_path (Some "/home/lea/incity.png") fresh_state)))
  ∧ ¬ image_missing
        (load_image_of LyonGenerator (picking "/home/lea/incity.png" (Ok pixel))
           fresh_state).2.
Proof.
  apply (load_image_loads LyonGenerator (picking "/home/lea/incity.png" (Ok pixel))
           fresh_state "/home/lea/incity.png" pixel).
  - reflexivity.
  - reflexivity.
  - reflexivity.
  - reflexivity.
  - simpl. discriminate.
Defined.

(** X4. When the chosen file does not decode, the error is logged and the
    picture loaded before (or none) is kept, but the path is already the new
    one: the first check of the buttons is passed from then on, with or
    without a picture. *)
Theorem load_image_failed_decode_keeps_path (g : program) (ui : desktop) (s : state)
    (p e : string) :
  askopenfilename ui = Ok p →
  str_truthy p = true →
  image_open ui p = Raise e →
  load_image_of g ui s
  = (Ok tt, logged ("ERREUR CHARGEMENT: " +:+ e) (with_reference_image_path (Some p) s))
  ∧ pil_image (load_image_of g ui s).2 = pil_image s
  ∧ ¬ image_missing (load_image_of g ui s).2.
Proof.
  intros Ha Hp Ho. rewrite (load_image_undecoded g ui s p e Ha Hp Ho).
  unfold image_missing. simpl. rewrite Hp. by repeat split.
Qed.

(** An instance: a file that is no picture, on the panel as it starts. *)
Lemma load_image_failed_decode_keeps_path_witness :
  load_image_of IncityGenerator
    (picking "/home/lea/notes.png" (Raise "cannot identify image file")) fresh_state
  = (Ok tt, logged ("ERREUR CHARGEMENT: " +:+ "cannot identify image file")
              (with_reference_image_path (Some "/home/lea/notes.png") fresh_state))
  ∧ pil_image (load_image_of IncityGenerator
                 (picking "/home/lea/notes.png" (Raise "cannot identify image file"))
                 fresh_state).2 = pil_image fresh_state
  ∧ ¬ image_missing
        (load_image_of IncityGenerator
           (picking "/home/lea/notes.png" (Raise "cannot identify image file"))
           fresh_state).2.
Proof.
  apply (load_image_failed_decode_keeps_path IncityGenerator
           (picking "/home/lea/notes.png" (Raise "cannot identify image file"))
           fresh_state "/home/lea/notes.png" "cannot identify image file").
  - reflexivity.
  - reflexivity.
  - reflexivity.
Defined.

(** * Dispatch on a ready panel *)

Lemma not_blank_ready (s : state) :
  ¬ image_missing s → ¬ blank (api_entry s) → ready s.
Proof.
  unfold image_missing. intros Hp Hk. split; [by apply not_false_is_true |].
  apply not_false_is_true. by rewrite truthy_strip.
Qed.

Lemma trigger_ready (g : program) (f d : string) (s : state) :
  ready s → trigger_of g f d s = (Ok tt, with_threads (threads s ++ [(f, d)]) s).
Proof.
  intros [Hp Hk].
  destruct g; simpl;
    cbv [Incity.trigger_generation Lyon.trigger_generation mbind M_bind gets];
    rewrite Hp; cbn [negb]; by rewrite Hk.
Qed.

Lemma generate_all_everything_outcome (s : state) :
  ready s →
  Incity.generate_all_everything s
  = (Ok tt,
     batch_outcome "Génération batch PLEINE LUNE (5 images)..." Incity.fullmoon_configs
       (batch_outcome "Génération batch NUIT LED (5 images)..." Incity.night_configs
          (batch_outcome "Génération batch EASTER EGGS NUIT (6 images)..."
             Incity.easter_night_configs
             (batch_outcome "Génération batch EASTER EGGS JOUR (6 images)..."
                Incity.easter_day_configs
                (batch_outcome "Génération batch MÉTÉO JOUR (7 images)..."
                   Incity.day_configs
                   (logged "Génération TOTALE (29 images)..." s)))))).
Proof.
  intros Hs. pose proof Hs as [Hp Hk].
  cbv [Incity.generate_all_everything mbind M_bind gets].
  rewrite Hp; cbn [negb]; rewrite Hk; cbn [negb]; rewrite log_logged.
  set (s0 := logged _ s). assert (ready s0) as H0 by done.
  rewrite (generate_all_day_ready s0 H0).
  set (s1 := batch_outcome _ _ s0). assert (ready s1) as H1 by done.
  rewrite (generate_all_easter_day_ready s1 H1).
  set (s2 := batch_outcome _ _ s1). assert (ready s2) as H2 by done.
  rewrite (generate_all_easter_night_ready s2 H2).
  set (s3 := batch_outcome _ _ s2). assert (ready s3) as H3 by done.
  rewrite (generate_all_night_ready s3 H3).
  set (s4 := batch_outcome _ _ s3). assert (ready s4) as H4 by done.
  by rewrite (generate_all_fullmoon_ready s4 H4).
Qed.

(** X5. When a picture path is set and the credential field holds more than
    white space, pressing a button of either panel starts exactly one
    thread, for the file name and prompt of that button, and does nothing
    else: no dialog, no log entry, no request, nothing on disk. *)
Theorem trigger_starts_one_thread (g : program) (f d : string) (s : state) :
  ¬ image_missing s →
  ¬ blank (api_entry s) →
  trigger_of g f d s = (Ok tt, with_threads (threads s ++ [(f, d)]) s).
Proof. intros Hp Hk. by apply trigger_ready, not_blank_ready. Qed.

(** An instance: Lyon's snow button on a panel with picture and key. *)
Lemma trigger_starts_one_thread_witness :
  trigger_of LyonGenerator "D_snow_day.png" "heavy snow" sample_state
  = (Ok tt, with_threads ([] ++ [("D_snow_day.png", "heavy snow")]) sample_state).
Proof.
  apply (trigger_starts_one_thread LyonGenerator "D_snow_day.png" "heavy snow" sample_state).
  - unfold image_missing. simpl. discriminate.
  - intros H. inversion H as [|? ? Hc _]. discriminate Hc.
Defined.

(** X6. On a ready panel "generate everything" writes six log entries, its own
    and then one per group in the order day, easter day, easter night,
    night, full moon; it shows no dialog, hands the adapter nothing and
    leaves the disk alone. *)
Theorem generate_all_everything_logs_six (s : state) :
  ready s →
  emitted Incity.generate_all_everything s
  = [entry "Génération TOTALE (29 images)...";
     entry "Génération batch MÉTÉO JOUR (7 images)...";
     entry "Génération batch EASTER EGGS JOUR (6 images)...";
     entry "Génération batch EASTER EGGS NUIT (6 images)...";
     entry "Génération batch NUIT LED (5 images)...";
     entry "Génération batch PLEINE LUNE (5 images)..."]
  ∧ dialogs (Incity.generate_all_everything s).2 = dialogs s
  ∧ calls (Incity.generate_all_everything s).2 = calls s
  ∧ disk (Incity.generate_all_everything s).2 = disk s.
Proof.
  intros Hs. split.
  - apply emitted_app. rewrite (generate_all_everything_outcome s Hs).
    cbn [snd batch_outcome logged log_box with_threads with_log].
    by rewrite <- !app_assoc.
  - by rewrite (generate_all_everything_outcome s Hs).
Qed.

(** An instance: the panel with a picture loaded and a key typed. *)
Lemma generate_all_everything_logs_six_witness :
  emitted Incity.generate_all_everything sample_state
  = [entry "Génération TOTALE (29 images)...";
     entry "Génération batch MÉTÉO JOUR (7 images)...";
     entry "Génération batch EASTER EGGS JOUR (6 images)...";
     entry "Génération batch EASTER EGGS NUIT (6 images)...";
     entry "Génération batch NUIT LED (5 images)...";
     entry "Génération batch PLEINE LUNE (5 images)..."]
  ∧ dialogs (Incity.generate_all_everything sample_state).2 = dialogs sample_state
  ∧ calls (Incity.generate_all_everything sample_state).2 = calls sample_state
  ∧ disk (Incity.generate_all_everything sample_state).2 = disk sample_state.
Proof.
  apply (generate_all_everything_logs_six sample_state).
  split; reflexivity.
Defined.

(** * The catalogs *)

Lemma has_sep_startswith (name : string) : has_sep name = false → startswith_sep name = false.
Proof. destruct name as [|c name]; [done |]. simpl. by destruct (Ascii.eqb c "/"). Qed.

Lemma catalog_plain (g : program) : Forall (λ t, plain_png t.1 = true) (catalog_of g).
Proof. destruct g; apply (bool_decide_unpack _); by vm_compute. Qed.

Lemma catalog_names_NoDup (g : program) : NoDup (map fst (catalog_of g)).
Proof. destruct g; apply (bool_decide_unpack _); by vm_compute. Qed.

Lemma final_paths_NoDup (out : string) (names : list string) :
  NoDup names → NoDup (map (λ name, out +:+ "/" +:+ name) names).
Proof.
  apply (NoDup_fmap_2 _).
Qed.

Lemma catalog_paths_plain (g : program) (d : filesystem) :
  Forall (λ t, os_path_join (output_dir_of g d) t.1 = output_dir_of g d +:+ "/" +:+ t.1)
         (catalog_of g).
Proof.
  eapply Forall_impl; [apply catalog_plain |]. intros t Ht.
  apply final_path_of, has_sep_startswith.
  unfold plain_png in Ht. apply andb_true_iff in Ht as [Ht _].
  by apply negb_true_iff.
Qed.

(** X7. Every button of a panel has a file of its own: the 29 names of Incity
    and the 47 of Lyon are plain PNG names, so each file goes right under
    the output directory, and no two buttons of a panel share a path,
    wherever the program is started. *)
Theorem catalog_files_apart (g : program) (d : filesystem) :
  length (catalog_of g) = match g with IncityGenerator => 29 | LyonGenerator => 47 end
  ∧ Forall (λ t, plain_png t.1 = true
                 ∧ os_path_join (output_dir_of g d) t.1 = output_dir_of g d +:+ "/" +:+ t.1)
           (catalog_of g)
  ∧ NoDup (map (λ t, os_path_join (output_dir_of g d) t.1) (catalog_of g)).
Proof.
  assert (Forall (λ t, plain_png t.1 = true
                       ∧ os_path_join (output_dir_of g d) t.1
                         = output_dir_of g d +:+ "/" +:+ t.1) (catalog_of g)) as Hall.
  { eapply Forall_impl; [apply catalog_plain |]. intros t Ht. split; [done |].
    apply final_path_of, has_sep_startswith.
    unfold plain_png in Ht. apply andb_true_iff in Ht as [Ht _].
    by apply negb_true_iff. }
  split; [by destruct g |]. split; [done |].
  rewrite (Forall_fmap_ext_1 _ (λ t, output_dir_of g d +:+ "/" +:+ t.1)).
  - change (NoDup (((λ name, output_dir_of g d +:+ "/" +:+ name) ∘ fst) <$> catalog_of g)).
    rewrite list_fmap_compose. apply final_paths_NoDup, catalog_names_NoDup.
  - eapply Forall_impl; [exact Hall |]. by intros t [_ Ht].
Qed.

(** * What a task run can touch *)

Lemma plain_name_relative (name : string) :
  plain_name name = true → startswith_sep name = false.
Proof.
  unfold plain_name. rewrite !andb_true_iff, negb_true_iff.
  intros [[[_ Hs] _] _]. by apply has_sep_startswith.
Qed.


Lemma stored_stored (path : string) (b1 b2 : bytes) (s : state) :
  stored path b2 (stored path b1 s) = stored path b2 s.
Proof. unfold stored. simpl. by rewrite insert_insert_eq. Qed.

Global Instance rewritten_preorder (path : string) : PreOrder (rewritten path).
Proof.
  split; [intros s; by left |].
  intros s1 s2 s3 [-> | [b1 ->]] [-> | [b2 ->]];
    [by left | right; by exists b2 | right; by exists b1 |].
  right. exists b2. apply stored_stored.
Qed.

Section Rewritten.
Context (ext : external) (path : string).

Lemma open_write_rewritten (b : bytes) : preserves (rewritten path) (open_write path b).
Proof.
  intros s. unfold open_write.
  destruct (write_bytes path b (disk s)) as [d | e] eqn:Hw; [| by left].
  right. exists b. unfold stored. simpl. f_equal.
  rewrite write_bytes_eq in Hw.
  by destruct (nodes (disk s) !! path) as [[]|], (read_only (disk s)); simplify_eq.
Qed.

Lemma save_part_rewritten (p : part) (saved : bool) :
  preserves (rewritten path) (save_part ext path p saved).
Proof.
  unfold save_part. destruct (inline_data p); [| apply preserves_ret, _].
  apply preserves_bind; [apply _ | |].
  - apply preserves_try_except; [apply _ | | intros _; apply preserves_ret, _].
    unfold as_image_save. destruct (as_image p);
      [apply preserves_ret, _ | apply preserves_raise, _ |].
    apply preserves_bind; [apply _ | apply open_write_rewritten |].
    intros _. apply preserves_ret, _.
  - intros [|]; [apply preserves_ret, _ |].
    destruct (negb saved); [| apply preserves_ret, _].
    apply preserves_bind; [apply _ | apply preserves_lift, _ |].
    intros raw. apply preserves_bind; [apply _ | apply open_write_rewritten |].
    intros _. apply preserves_ret, _.
Qed.

Lemma save_response_rewritten (r : response) :
  preserves (rewritten path) (save_response ext path r).
Proof.
  unfold save_response. destruct (parts r) as [ps |]; [| apply preserves_ret, _].
  generalize false. induction ps as [|p ps IH]; intros saved; [apply preserves_ret, _ |].
  simpl. apply preserves_bind; [apply _ | apply save_part_rewritten |].
  intros [saved' []]; simpl; [apply IH | apply preserves_ret, _].
Qed.
End Rewritten.

Lemma with_disk_eta (s : state) :
  with_disk (with_nodes (nodes (disk s)) (disk s)) s = s.
Proof. by destruct s as [? ? ? ? ? ? [] ? ?]. Qed.

(** A task run, field by field. *)
Lemma run_task_fields (g : program) (ext : external) (f d : string) (s : state) :
  ∃ (l : list string) (cs : list request) (co : list response),
    reference_image_path (run_task g ext f d s).2 = reference_image_path s
    ∧ pil_image (run_task g ext f d s).2 = pil_image s
    ∧ api_entry (run_task g ext f d s).2 = api_entry s
    ∧ dialogs (run_task g ext f d s).2 = dialogs s
    ∧ threads (run_task g ext f d s).2 = threads s
    ∧ log_box (run_task g ext f d s).2 = log_box s ++ l
    ∧ calls (run_task g ext f d s).2 = calls s ++ cs
    ∧ console (run_task g ext f d s).2 = console s ++ co
    ∧ cwd (disk (run_task g ext f d s).2) = cwd (disk s)
    ∧ read_only (disk (run_task g ext f d s).2) = read_only (disk s)
    ∧ (∀ q, nodes (disk (run_task g ext f d s).2) !! q = nodes (disk s) !! q
            ∨ q = output_dir_of g (disk s)
            ∨ q = os_path_join (output_dir_of g (disk s)) f)
    ∧ (l = [client_error_entry g (match Client ext (strip (api_entry s)) with
                                  | Raise e => e | Ok _ => "" end)]
       ∨ ∃ rest, l = progress_entry g f :: rest ∧ length rest ≤ 1)
    ∧ (cs = [] ∨ cs = [request_of g d s]).
Proof.
  destruct (Client ext (strip (api_entry s))) as [c | e] eqn:Hc.
  2: { exists [client_error_entry g e], [], []. destruct g; simpl.
       - rewrite (incity_task_no_client ext f d s e Hc). simpl.
         rewrite !app_nil_r. repeat split; auto.
       - rewrite (lyon_task_no_client ext f d s e Hc). simpl.
         rewrite !app_nil_r. repeat split; auto. }
  destruct (makedirs (output_dir_of g (disk s)) (disk s)) as [d1 | e] eqn:Hm.
  2: { exists [progress_entry g f], [], []. destruct g; simpl in *.
       - rewrite (incity_task_no_dir ext f d s c e Hc Hm). simpl.
         rewrite !app_nil_r. repeat split; auto. right. exists []. split; [done | simpl; lia].
       - rewrite (lyon_task_no_dir ext f d s c e Hc Hm). simpl.
         rewrite !app_nil_r. repeat split; auto. right. exists []. split; [done | simpl; lia]. }
  pose proof (makedirs_nodes _ _ _ Hm) as Hd1.
  assert (∀ q, nodes d1 !! q = nodes (disk s) !! q ∨ q = output_dir_of g (disk s)) as Hq1.
  { intros q. rewrite Hd1. simpl.
    destruct (decide (output_dir_of g (disk s) = q)) as [<- | Hne]; [by right |].
    left. by rewrite lookup_insert_ne. }
  destruct (generate_content ext c (request_of g d s)) as [r | e] eqn:Hg.
  2: { exists [progress_entry g f; failure_entry g f (Raise e)], [request_of g d s], [].
       destruct g; simpl in *.
       - rewrite (incity_task_raise ext f d s c d1 e Hc Hm Hg). simpl.
         rewrite !app_nil_r, <- app_assoc, Hd1. simpl.
         repeat split; auto.
         + intros q. destruct (Hq1 q) as [<- | ->]; [| by auto].
           left. by rewrite Hd1.
         + right. exists [incity_failure_entry f (Raise e)]. split; [done | simpl; lia].
       - rewrite (lyon_task_raise ext f d s c d1 e Hc Hm Hg). simpl.
         rewrite !app_nil_r, <- app_assoc, Hd1. simpl.
         repeat split; auto.
         + intros q. destruct (Hq1 q) as [<- | ->]; [| by auto].
           left. by rewrite Hd1.
         + right. exists [lyon_failure_entry (Raise e)]. split; [done | simpl; lia]. }
  rewrite (run_task_answer g ext f d s c d1 r Hc Hm Hg).
  set (path := os_path_join (output_dir_of g (disk s)) f).
  pose proof (save_response_rewritten ext path r (called g f d d1 s)) as Hrw.
  destruct (save_response ext path r (called g f d d1 s)) as [o s3]. simpl in Hrw.
  assert (∃ m', s3 = with_disk (with_nodes m' d1) (called g f d d1 s)
                ∧ ∀ q, m' !! q = nodes (disk s) !! q
                       ∨ q = output_dir_of g (disk s) ∨ q = path) as (m' & -> & Hm').
  { destruct (called_fields g f d d1 s) as (Hcd & _).
    destruct Hrw as [-> | [b ->]].
    - exists (nodes d1). split.
      + rewrite <- (with_disk_eta (called g f d d1 s)) at 1. by rewrite Hcd.
      + intros q. destruct (Hq1 q); auto.
    - exists (<[path := File b]> (nodes d1)). split.
      + unfold stored. by rewrite Hcd.
      + intros q. destruct (decide (path = q)) as [<- | Hne]; [by auto |].
        rewrite lookup_insert_ne by done. destruct (Hq1 q); auto. }
  assert (∃ line (co : list response),
             finish g f r (o, with_disk (with_nodes m' d1) (called g f d d1 s))
             = (Ok tt, with_console (console s ++ co)
                         (with_log (log_box s ++ [progress_entry g f; line])
                            (with_disk (with_nodes m' d1) (called g f d d1 s)))))
    as (line & co & ->).
  { destruct g, o as [[|] | e]; simpl;
      [eexists _, [] | eexists _, [r] | eexists _, [] ..
      | eexists _, [] | eexists _, [r] | eexists _, []];
      cbv [logged incity_called lyon_called incity_started lyon_started
           with_console with_log with_disk with_calls
           reference_image_path pil_image api_entry log_box dialogs threads disk
           calls console];
      rewrite ?app_nil_r, <- ?app_assoc; reflexivity. }
  exists [progress_entry g f; line], [request_of g d s], co.
  simpl. rewrite Hd1. destruct g; simpl; repeat split; auto;
    right; exists [line]; (split; [done | simpl; lia]).
Qed.

(** X8. A task run never touches the session: the picture path, the picture,
    the credential field, the dialogs and the started threads are as
    before; and it never takes anything back: the log, the requests and the
    console output it finds are a prefix of what it leaves.  This holds for
    every adapter and file system, also when the run ends by an exception. *)
Theorem task_leaves_session (g : program) (ext : external) (f d : string) (s : state) :
  reference_image_path (run_task g ext f d s).2 = reference_image_path s
  ∧ pil_image (run_task g ext f d s).2 = pil_image s
  ∧ api_entry (run_task g ext f d s).2 = api_entry s
  ∧ dialogs (run_task g ext f d s).2 = dialogs s
  ∧ threads (run_task g ext f d s).2 = threads s
  ∧ log_box s `prefix_of` log_box (run_task g ext f d s).2
  ∧ calls s `prefix_of` calls (run_task g ext f d s).2
  ∧ console s `prefix_of` console (run_task g ext f d s).2.
Proof.
  destruct (run_task_fields g ext f d s)
    as (l & cs & co & H1 & H2 & H3 & H4 & H5 & H6 & H7 & H8 & _).
  rewrite H1, H2, H3, H4, H5, H6, H7, H8.
  repeat split; by apply prefix_app_r.
Qed.

(** X9. A task run for a plain file name writes nowhere but at its output
    directory and at its own file: every other path of the disk holds after
    the run what it held before, the working directory is the same, and the
    file of any other plain name under the output directory is left as it
    was, whatever the run did and however it ended.  The disk is one of
    directories and regular files. *)
Theorem task_writes_only_its_file (g : program) (ext : external) (f d : string)
    (s : state) :
  plain_name f = true →
  cwd (disk (run_task g ext f d s).2) = cwd (disk s)
  ∧ read_only (disk (run_task g ext f d s).2) = read_only (disk s)
  ∧ (∀ q, q ≠ output_dir_of g (disk s) → q ≠ output_dir_of g (disk s) +:+ "/" +:+ f →
          nodes (disk (run_task g ext f d s).2) !! q = nodes (disk s) !! q)
  ∧ (∀ f', plain_name f' = true → f' ≠ f →
           nodes (disk (run_task g ext f d s).2) !! (output_dir_of g (disk s) +:+ "/" +:+ f')
           = nodes (disk s) !! (output_dir_of g (disk s) +:+ "/" +:+ f')).
Proof.
  intros Hf%plain_name_relative.
  destruct (final_path_of g (disk s) f Hf) as [Hp _].
  destruct (run_task_fields g ext f d s)
    as (l & cs & co & _ & _ & _ & _ & _ & _ & _ & _ & Hcwd & Hro & Hq & _).
  assert (∀ q, q ≠ output_dir_of g (disk s) → q ≠ output_dir_of g (disk s) +:+ "/" +:+ f →
               nodes (disk (run_task g ext f d s).2) !! q = nodes (disk s) !! q) as Hoff.
  { intros q H1 H2. rewrite <- Hp in H2. by destruct (Hq q) as [? | [? | ?]]. }
  repeat split; [done | done | done |].
  intros f' Hf'%plain_name_relative Hne.
  destruct (final_path_of g (disk s) f' Hf') as [Hp' Hne'].
  apply Hoff; [by rewrite <- Hp' |]. intros Heq.
  apply (inj (String.app _)) in Heq. apply (inj (String.app "/")) in Heq. done.
Qed.

(** An instance: the rain task of Incity on the sample panel. *)
Lemma task_writes_only_its_file_witness :
  cwd (disk (run_task IncityGenerator png_service rain_task.1 rain_task.2 sample_state).2)
  = cwd (disk sample_state)
  ∧ read_only (disk (run_task IncityGenerator png_service rain_task.1 rain_task.2
                       sample_state).2)
    = read_only (disk sample_state)
  ∧ (∀ q, q ≠ output_dir_of IncityGenerator (disk sample_state) →
          q ≠ output_dir_of IncityGenerator (disk sample_state) +:+ "/" +:+ rain_task.1 →
          nodes (disk (run_task IncityGenerator png_service rain_task.1 rain_task.2
                         sample_state).2) !! q
          = nodes (disk sample_state) !! q)
  ∧ (∀ f', plain_name f' = true → f' ≠ rain_task.1 →
           nodes (disk (run_task IncityGenerator png_service rain_task.1 rain_task.2
                          sample_state).2)
             !! (output_dir_of IncityGenerator (disk sample_state) +:+ "/" +:+ f')
           = nodes (disk sample_state)
               !! (output_dir_of IncityGenerator (disk sample_state) +:+ "/" +:+ f')).
Proof.
  apply (task_writes_only_its_file IncityGenerator png_service rain_task.1 rain_task.2
           sample_state).
  reflexivity.
Defined.

(** X10. A task run calls the adapter at most once (there is no retry), always
    for the picture of the session, the model [gemini-3-pro-image-preview],
    images only, size 2K, and the ratio of its program (1:1 for Incity, 16:9
    for Lyon); and it writes one or two log entries. *)
Theorem task_calls_at_most_once (g : program) (ext : external) (f d : string)
    (s : state) :
  length (submitted (run_task g ext f d) s) ≤ 1
  ∧ Forall (λ rq, model rq = "gemini-3-pro-image-preview"
                  ∧ contents rq = (base_prompt_of g d, pil_image s)
                  ∧ response_modalities rq = ["IMAGE"]
                  ∧ aspect_ratio rq = match g with
                                      | IncityGenerator => "1:1"
                                      | LyonGenerator => "16:9"
                                      end
                  ∧ image_size rq = "2K")
           (submitted (run_task g ext f d) s)
  ∧ 1 ≤ length (emitted (run_task g ext f d) s) ≤ 2.
Proof.
  destruct (run_task_fields g ext f d s)
    as (l & cs & co & _ & _ & _ & _ & _ & Hl & Hc & _ & _ & _ & _ & Hl' & Hcs).
  unfold submitted, emitted. rewrite Hl, Hc, !drop_app_length.
  split; [| split].
  - destruct Hcs as [-> | ->]; simpl; lia.
  - destruct Hcs as [-> | ->]; [constructor |].
    apply Forall_cons_2; [| constructor]. by destruct g.
  - destruct Hl' as [-> | (rest & -> & Hr)]; simpl; lia.
Qed.

(** * The result sink at its edges *)

Lemma write_bytes_error (p : string) (b b' : bytes) (d : filesystem) (e : string) :
  write_bytes p b d = Raise e → write_bytes p b' d = Raise e.
Proof.
  rewrite !write_bytes_eq.
  by destruct (nodes d !! p) as [[]|], (read_only d).
Qed.

Lemma stored_writable (path : string) (b : bytes) (s : state) :
  writable path (disk s) → writable path (disk (stored path b s)).
Proof.
  intros [_ Hr]. split; [| done]. simpl. by rewrite lookup_insert_eq.
Qed.

Section Edges.
Context (ext : external) (path : string).

Lemma save_parts_skip (pre rest : list part) (saved : bool) (s : state) :
  Forall (λ q, inline_data q = None) pre →
  save_parts ext path (pre ++ rest) saved s = save_parts ext path rest saved s.
Proof.
  induction 1 as [|q pre Hq _ IH]; [done |].
  simpl. unfold mbind, M_bind, save_part at 1. rewrite Hq. simpl. apply IH.
Qed.

Lemma save_parts_skip_saved (mid rest : list part) (s : state) :
  Forall (λ q, inline_data q = None ∨ accessor_unusable q) mid →
  save_parts ext path (mid ++ rest) true s = save_parts ext path rest true s.
Proof.
  induction 1 as [|q mid Hq _ IH]; [done |].
  simpl. unfold mbind, M_bind, save_part at 1.
  destruct (inline_data q) as [blob |]; [| simpl; apply IH].
  destruct Hq as [Hq | Hq]; [done |].
  unfold mbind, M_bind, try_except, as_image_save.
  destruct Hq as [-> | ->]; simpl; apply IH.
Qed.

(** A part whose accessor works: its image is stored and the loop ends. *)
Lemma save_part_accessor (p : part) (blob : Blob) (b' : bytes) (saved : bool) (s : state) :
  inline_data p = Some blob →
  as_image p = AccessorImage b' →
  writable path (disk s) →
  save_part ext path p saved s = (Ok (true, Break), stored path b' s).
Proof.
  intros Hi Ha Hw. unfold save_part. rewrite Hi.
  unfold mbind, M_bind, try_except, as_image_save. rewrite Ha.
  unfold mbind, M_bind. by rewrite open_write_writable.
Qed.

(** The file cannot be written: the part raises and changes nothing. *)
Lemma save_part_unwritable (p : part) (b : bytes) (e : string) (s : state) :
  carries ext p b →
  write_bytes path b (disk s) = Raise e →
  save_part ext path p false s = (Raise e, s).
Proof.
  intros [(blob & Hi & Hd) Ha]%carries_img_data Hw. unfold save_part. rewrite Hi.
  unfold mbind, M_bind, try_except, as_image_save.
  destruct (as_image p) as [| | b'] eqn:Hacc; simpl.
  - unfold lift. rewrite Hd. unfold open_write. by rewrite Hw.
  - unfold lift. rewrite Hd. unfold open_write. by rewrite Hw.
  - unfold mbind, M_bind, open_write at 1.
    rewrite (write_bytes_error path b b' _ e Hw). simpl.
    unfold lift. rewrite Hd. unfold open_write. by rewrite Hw.
Qed.

(** The text does not decode: the part raises and changes nothing. *)
Lemma save_part_undecodable (p : part) (blob : Blob) (t e : string) (s : state) :
  inline_data p = Some blob →
  data blob = DataStr t →
  accessor_unusable p →
  b64decode ext t = Raise e →
  save_part ext path p false s = (Raise e, s).
Proof.
  intros Hi Hd Ha He. unfold save_part. rewrite Hi, Hd.
  unfold mbind, M_bind, try_except, as_image_save.
  destruct Ha as [-> | ->]; simpl; unfold lift; by rewrite He.
Qed.
End Edges.

(** A run whose loop over the parts stores [b]. *)
Lemma run_task_stores (g : program) (ext : external) (f d : string) (s : state)
    (c : client ext) (r : response) (b : bytes) :
  Client ext (strip (api_entry s)) = Ok c →
  generate_content ext c (request_of g d s) = Ok r →
  startswith_sep f = false →
  read_only (disk s) = false →
  (∀ raw, nodes (disk s) !! output_dir_of g (disk s) ≠ Some (File raw)) →
  nodes (disk s) !! (output_dir_of g (disk s) +:+ "/" +:+ f) ≠ Some Dir →
  (∀ s2, writable (output_dir_of g (disk s) +:+ "/" +:+ f) (disk s2) →
         save_response ext (output_dir_of g (disk s) +:+ "/" +:+ f) r s2
         = (Ok true, stored (output_dir_of g (disk s) +:+ "/" +:+ f) b s2)) →
  (run_task g ext f d s).1 = Ok tt
  ∧ nodes (disk (run_task g ext f d s).2)
    = <[output_dir_of g (disk s) +:+ "/" +:+ f := File b]>
        (<[output_dir_of g (disk s) := Dir]> (nodes (disk s)))
  ∧ emitted (run_task g ext f d) s = [progress_entry g f; success_entry g f].
Proof.
  intros Hc Hg Hf Hr Hout Hfile Hsave.
  pose proof (makedirs_free _ _ Hout Hr) as Hm.
  destruct (final_path_of g (disk s) f Hf) as [Hpath Hne].
  set (d1 := with_nodes (<[output_dir_of g (disk s) := Dir]> (nodes (disk s))) (disk s)) in *.
  destruct (called_fields g f d d1 s) as (Hd & _ & Hl & _).
  assert (writable (output_dir_of g (disk s) +:+ "/" +:+ f) (disk (called g f d d1 s)))
    as Hw.
  { rewrite Hd. split; [| done]. subst d1. cbn [nodes with_nodes].
    rewrite lookup_insert_ne; [done | by rewrite <- Hpath]. }
  pose proof (run_task_answer g ext f d s c d1 _ Hc Hm Hg) as Hrun.
  rewrite Hpath, (Hsave _ Hw), finish_saved in Hrun.
  split; [by rewrite Hrun |]. split.
  - rewrite Hrun. cbn [snd disk with_log stored with_disk]. rewrite Hd.
    by subst d1.
  - apply emitted_app. rewrite Hrun. cbn [snd log_box with_log stored with_disk].
    rewrite Hl. by rewrite <- app_assoc.
Qed.

(** X11. When the file of the task cannot be opened for writing (a directory
    is at its path, or the file system takes no writes), the run of a task
    whose answer carries an image returns normally: the error of [open] is
    logged as "ERREUR: ..." after the progress entry, and the disk stays as
    the directory creation left it.  (What happens when the file is opened
    and the write then fails is not part of this disk.) *)
Theorem write_failure_is_logged (g : program) (ext : external) (f d : string)
    (s : state) (c : client ext) (d1 : filesystem) (ps : list part) (p : part)
    (b : bytes) (e : string) :
  Client ext (strip (api_entry s)) = Ok c →
  makedirs (output_dir_of g (disk s)) (disk s) = Ok d1 →
  generate_content ext c (request_of g d s) = Ok {| parts := Some ps |} →
  first_image ps p →
  carries ext p b →
  open_wb (os_path_join (output_dir_of g (disk s)) f) d1 = Raise e →
  (run_task g ext f d s).1 = Ok tt
  ∧ disk (run_task g ext f d s).2 = d1
  ∧ emitted (run_task g ext f d) s = [progress_entry g f; failure_entry g f (Raise e)].
Proof.
  intros Hc Hm Hg (pre & post & -> & Hpre & _) Hp Ho.
  pose proof (open_wb_error _ b _ _ Ho) as Hw.
  pose proof (run_task_answer g ext f d s c d1 _ Hc Hm Hg) as Hrun.
  destruct (called_fields g f d d1 s) as (Hd & _ & Hl & _).
  unfold save_response in Hrun. cbn [parts] in Hrun.
  rewrite save_parts_skip in Hrun by done.
  cbn [save_parts] in Hrun. unfold mbind, M_bind in Hrun.
  rewrite (save_part_unwritable ext _ p b e) in Hrun; [| done | by rewrite Hd].
  assert (run_task g ext f d s
          = (Ok tt, with_log (log_box (called g f d d1 s) ++ [failure_entry g f (Raise e)])
                      (called g f d d1 s))) as Hend.
  { rewrite Hrun. by destruct g. }
  rewrite Hend. split; [done |]. split; [done |].
  apply emitted_app. rewrite Hend. cbn [snd log_box with_log].
  rewrite Hl. by rewrite <- app_assoc.
Qed.

(** An instance: a directory sits at the path of the file. *)
Lemma write_failure_is_logged_witness :
  (run_task IncityGenerator (scripted (Ok {| parts := Some [bytes_part png] |}))
     "incity_rain_day.png" "Rainy weather"
     (with_disk (blocked_disk "incity_rain_day.png") sample_state)).1 = Ok tt
  ∧ disk (run_task IncityGenerator (scripted (Ok {| parts := Some [bytes_part png] |}))
            "incity_rain_day.png" "Rainy weather"
            (with_disk (blocked_disk "incity_rain_day.png") sample_state)).2
    = blocked_disk "incity_rain_day.png"
  ∧ emitted (run_task IncityGenerator (scripted (Ok {| parts := Some [bytes_part png] |}))
               "incity_rain_day.png" "Rainy weather")
      (with_disk (blocked_disk "incity_rain_day.png") sample_state)
    = [progress_entry IncityGenerator "incity_rain_day.png";
       failure_entry IncityGenerator "incity_rain_day.png"
         (Raise "[Errno 21] Is a directory: '/home/lea/output_incity/incity_rain_day.png'")].
Proof.
  apply (write_failure_is_logged IncityGenerator
           (scripted (Ok {| parts := Some [bytes_part png] |}))
           "incity_rain_day.png" "Rainy weather"
           (with_disk (blocked_disk "incity_rain_day.png") sample_state) tt
           (blocked_disk "incity_rain_day.png") [bytes_part png] (bytes_part png) png).
  - reflexivity.
  - reflexivity.
  - reflexivity.
  - exists [], []. split; [done |]. split; [constructor | by intros _].
  - split; [by exists {| data := DataBytes png |} | intros b' Hb'; discriminate Hb'].
  - reflexivity.
Defined.

(** X12. When the first image part of the answer holds text that does not
    decode as base64 and its accessor is of no use, nothing is written: the
    run returns normally, logs the decoding error as "ERREUR: ..." after the
    progress entry and leaves the disk as the directory creation left it. *)
Theorem decode_failure_is_logged (g : program) (ext : external) (f d : string)
    (s : state) (c : client ext) (d1 : filesystem) (pre post : list part) (p : part)
    (blob : Blob) (t e : string) :
  Client ext (strip (api_entry s)) = Ok c →
  makedirs (output_dir_of g (disk s)) (disk s) = Ok d1 →
  generate_content ext c (request_of g d s) = Ok {| parts := Some (pre ++ p :: post) |} →
  Forall (λ q, inline_data q = None) pre →
  inline_data p = Some blob →
  data blob = DataStr t →
  accessor_unusable p →
  b64decode ext t = Raise e →
  (run_task g ext f d s).1 = Ok tt
  ∧ disk (run_task g ext f d s).2 = d1
  ∧ emitted (run_task g ext f d) s = [progress_entry g f; failure_entry g f (Raise e)].
Proof.
  intros Hc Hm Hg Hpre Hi Hd Ha He.
  pose proof (run_task_answer g ext f d s c d1 _ Hc Hm Hg) as Hrun.
  destruct (called_fields g f d d1 s) as (Hdk & _ & Hl & _).
  unfold save_response in Hrun. cbn [parts] in Hrun.
  rewrite save_parts_skip in Hrun by done.
  cbn [save_parts] in Hrun. unfold mbind, M_bind in Hrun.
  rewrite (save_part_undecodable ext _ p blob t e) in Hrun by done.
  assert (run_task g ext f d s
          = (Ok tt, with_log (log_box (called g f d d1 s) ++ [failure_entry g f (Raise e)])
                      (called g f d d1 s))) as Hend.
  { rewrite Hrun. by destruct g. }
  rewrite Hend. split; [done |]. split; [done |].
  apply emitted_app. rewrite Hend. cbn [snd log_box with_log].
  rewrite Hl. by rewrite <- app_assoc.
Qed.

(** An instance: the text [aGk] lacks its padding. *)
Lemma decode_failure_is_logged_witness :
  (run_task LyonGenerator (scripted (Ok {| parts := Some ([plain_part] ++ text_part "aGk" :: []) |}))
     "D_snow_day.png" "heavy snow" sample_state).1 = Ok tt
  ∧ disk (run_task LyonGenerator
            (scripted (Ok {| parts := Some ([plain_part] ++ text_part "aGk" :: []) |}))
            "D_snow_day.png" "heavy snow" sample_state).2
    = with_nodes {[ "/home/lea/output_lyon_gemini3" := Dir ]} sample_disk
  ∧ emitted (run_task LyonGenerator
               (scripted (Ok {| parts := Some ([plain_part] ++ text_part "aGk" :: []) |}))
               "D_snow_day.png" "heavy snow") sample_state
    = [progress_entry LyonGenerator "D_snow_day.png";
       failure_entry LyonGenerator "D_snow_day.png" (Raise "Incorrect padding")].
Proof.
  apply (decode_failure_is_logged LyonGenerator
           (scripted (Ok {| parts := Some ([plain_part] ++ text_part "aGk" :: []) |}))
           "D_snow_day.png" "heavy snow" sample_state tt
           (with_nodes {[ "/home/lea/output_lyon_gemini3" := Dir ]} sample_disk)
           [plain_part] [] (text_part "aGk") {| data := DataStr "aGk" |} "aGk").
  - reflexivity.
  - reflexivity.
  - reflexivity.
  - by repeat constructor.
  - reflexivity.
  - reflexivity.
  - by right.
  - reflexivity.
Defined.

(** X13. When the first image part of the answer has an accessor that works, the
    file holds the image of that accessor and the loop stops there: the
    inline data of the part (which may differ, or be text that does not
    decode) and all later parts play no role. *)
Theorem accessor_image_wins (g : program) (ext : external) (f d : string) (s : state)
    (c : client ext) (pre post : list part) (p : part) (blob : Blob) (b' : bytes) :
  Client ext (strip (api_entry s)) = Ok c →
  generate_content ext c (request_of g d s) = Ok {| parts := Some (pre ++ p :: post) |} →
  Forall (λ q, inline_data q = None) pre →
  inline_data p = Some blob →
  as_image p = AccessorImage b' →
  startswith_sep f = false →
  read_only (disk s) = false →
  (∀ raw, nodes (disk s) !! output_dir_of g (disk s) ≠ Some (File raw)) →
  nodes (disk s) !! (output_dir_of g (disk s) +:+ "/" +:+ f) ≠ Some Dir →
  (run_task g ext f d s).1 = Ok tt
  ∧ nodes (disk (run_task g ext f d s).2)
    = <[output_dir_of g (disk s) +:+ "/" +:+ f := File b']>
        (<[output_dir_of g (disk s) := Dir]> (nodes (disk s)))
  ∧ emitted (run_task g ext f d) s = [progress_entry g f; success_entry g f].
Proof.
  intros Hc Hg Hpre Hi Ha Hf Hr Hout Hfile.
  apply (run_task_stores g ext f d s c _ b' Hc Hg Hf Hr Hout Hfile).
  intros s2 Hw. unfold save_response. cbn [parts].
  rewrite save_parts_skip by done. cbn [save_parts]. unfold mbind, M_bind.
  by rewrite (save_part_accessor ext _ p blob b' false s2 Hi Ha Hw).
Qed.

(** An instance: the accessor gives [PNG-1], the inline data is text that
    does not decode, and a second image part follows. *)
Lemma accessor_image_wins_witness :
  (run_task IncityGenerator (scripted (Ok accessor_answer))
     "incity_rain_day.png" "Rainy weather" sample_state).1 = Ok tt
  ∧ nodes (disk (run_task IncityGenerator (scripted (Ok accessor_answer))
                   "incity_rain_day.png" "Rainy weather" sample_state).2)
    = <[output_dir_of IncityGenerator (disk sample_state) +:+ "/" +:+ "incity_rain_day.png"
          := File png]>
        (<[output_dir_of IncityGenerator (disk sample_state) := Dir]>
           (nodes (disk sample_state)))
  ∧ emitted (run_task IncityGenerator (scripted (Ok accessor_answer))
               "incity_rain_day.png" "Rainy weather") sample_state
    = [progress_entry IncityGenerator "incity_rain_day.png";
       success_entry IncityGenerator "incity_rain_day.png"].
Proof.
  apply (accessor_image_wins IncityGenerator (scripted (Ok accessor_answer))
           "incity_rain_day.png" "Rainy weather" sample_state tt
           [plain_part] [bytes_part []]
           {| inline_data := Some {| data := DataStr "aGk" |};
              as_image := AccessorImage png |}
           {| data := DataStr "aGk" |} png).
  - reflexivity.
  - reflexivity.
  - by repeat constructor.
  - reflexivity.
  - reflexivity.
  - reflexivity.
  - reflexivity.
  - intros raw. vm_compute. discriminate.
  - vm_compute. discriminate.
Defined.

(** X14. The raw save does not end the loop.  When the accessor of the first
    image part is of no use, its data [b1] is written raw; if a later image
    part has an accessor that works, the image [b2] of that part replaces
    it, and the file ends up holding [b2]. *)
Theorem later_accessor_replaces_raw_save (g : program) (ext : external) (f d : string)
    (s : state) (c : client ext) (pre mid post : list part) (p1 p2 : part)
    (blob1 blob2 : Blob) (b1 b2 : bytes) :
  Client ext (strip (api_entry s)) = Ok c →
  generate_content ext c (request_of g d s)
  = Ok {| parts := Some (pre ++ p1 :: mid ++ p2 :: post) |} →
  Forall (λ q, inline_data q = None) pre →
  inline_data p1 = Some blob1 →
  accessor_unusable p1 →
  img_data ext (data blob1) = Ok b1 →
  Forall (λ q, inline_data q = None ∨ accessor_unusable q) mid →
  inline_data p2 = Some blob2 →
  as_image p2 = AccessorImage b2 →
  startswith_sep f = false →
  read_only (disk s) = false →
  (∀ raw, nodes (disk s) !! output_dir_of g (disk s) ≠ Some (File raw)) →
  nodes (disk s) !! (output_dir_of g (disk s) +:+ "/" +:+ f) ≠ Some Dir →
  (run_task g ext f d s).1 = Ok tt
  ∧ nodes (disk (run_task g ext f d s).2)
    = <[output_dir_of g (disk s) +:+ "/" +:+ f := File b2]>
        (<[output_dir_of g (disk s) := Dir]> (nodes (disk s)))
  ∧ emitted (run_task g ext f d) s = [progress_entry g f; success_entry g f].
Proof.
  intros Hc Hg Hpre Hi1 Ha1 Hd1 Hmid Hi2 Ha2 Hf Hr Hout Hfile.
  apply (run_task_stores g ext f d s c _ b2 Hc Hg Hf Hr Hout Hfile).
  intros s2 Hw. unfold save_response. cbn [parts].
  rewrite save_parts_skip by done. cbn [save_parts]. unfold mbind, M_bind.
  rewrite (save_part_raw ext _ p1 blob1 b1 s2 Hi1 Ha1 Hd1 Hw). cbn [fst snd].
  rewrite save_parts_skip_saved by done. cbn [save_parts]. unfold mbind, M_bind.
  rewrite (save_part_accessor ext _ p2 blob2 b2 true _ Hi2 Ha2 (stored_writable _ b1 s2 Hw)).
  cbn [fst snd]. unfold mret, M_ret. by rewrite stored_stored.
Qed.

(** An instance: a part whose accessor raises, then one whose accessor
    gives [PNG-1]. *)
Lemma later_accessor_replaces_raw_save_witness :
  (run_task LyonGenerator (scripted (Ok relay_answer))
     "D_snow_day.png" "heavy snow" sample_state).1 = Ok tt
  ∧ nodes (disk (run_task LyonGenerator (scripted (Ok relay_answer))
                   "D_snow_day.png" "heavy snow" sample_state).2)
    = <[output_dir_of LyonGenerator (disk sample_state) +:+ "/" +:+ "D_snow_day.png"
          := File png]>
        (<[output_dir_of LyonGenerator (disk sample_state) := Dir]>
           (nodes (disk sample_state)))
  ∧ emitted (run_task LyonGenerator (scripted (Ok relay_answer))
               "D_snow_day.png" "heavy snow") sample_state
    = [progress_entry LyonGenerator "D_snow_day.png";
       success_entry LyonGenerator "D_snow_day.png"].
Proof.
  apply (later_accessor_replaces_raw_save LyonGenerator (scripted (Ok relay_answer))
           "D_snow_day.png" "heavy snow" sample_state tt [] [] []
           (raising_part [x00]) (accessor_part [x01] png)
           {| data := DataBytes [x00] |} {| data := DataBytes [x01] |} [x00] png).
  - reflexivity.
  - reflexivity.
  - constructor.
  - reflexivity.
  - by right.
  - reflexivity.
  - constructor.
  - reflexivity.
  - reflexivity.
  - reflexivity.
  - reflexivity.
  - intros raw. vm_compute. discriminate.
  - vm_compute. discriminate.
Defined.

Lemma output_dir_of_cwd (g : program) (d d' : filesystem) :
  cwd d' = cwd d → output_dir_of g d' = output_dir_of g d.
Proof. intros H. destruct g; simpl; unfold Incity.output_dir, Lyon.output_dir; by rewrite H. Qed.

Lemma request_of_image (g : program) (d : string) (s s' : state) :
  pil_image s' = pil_image s → request_of g d s' = request_of g d s.
Proof. intros H. destruct g; simpl; unfold incity_request, lyon_request; by rewrite H. Qed.

Lemma filesystem_eq (d d' : filesystem) :
  cwd d' = cwd d → nodes d' = nodes d → read_only d' = read_only d → d' = d.
Proof. destruct d, d'. simpl. by intros -> -> ->. Qed.

(** X15. Running a task again overwrites its file in silence.  After a run that
    stored the image [b], a second run of the same task that gets the same
    answer returns normally, logs progress and success once more and leaves
    the disk exactly as the first run left it. *)
Theorem rerun_keeps_disk (g : program) (ext : external) (f d : string) (s : state)
    (c : client ext) (ps : list part) (p : part) (b : bytes) :
  Client ext (strip (api_entry s)) = Ok c →
  generate_content ext c (request_of g d s) = Ok {| parts := Some ps |} →
  first_image ps p →
  carries ext p b →
  startswith_sep f = false →
  read_only (disk s) = false →
  (∀ raw, nodes (disk s) !! output_dir_of g (disk s) ≠ Some (File raw)) →
  nodes (disk s) !! (output_dir_of g (disk s) +:+ "/" +:+ f) ≠ Some Dir →
  (run_task g ext f d (run_task g ext f d s).2).1 = Ok tt
  ∧ disk (run_task g ext f d (run_task g ext f d s).2).2 = disk (run_task g ext f d s).2
  ∧ emitted (run_task g ext f d) (run_task g ext f d s).2
    = [progress_entry g f; success_entry g f].
Proof.
  intros Hc Hg Hps Hp Hf Hr Hout Hfile.
  assert (∀ s2, writable (output_dir_of g (disk s) +:+ "/" +:+ f) (disk s2) →
                save_response ext (output_dir_of g (disk s) +:+ "/" +:+ f)
                  {| parts := Some ps |} s2
                = (Ok true, stored (output_dir_of g (disk s) +:+ "/" +:+ f) b s2)) as Hsave.
  { intros s2 Hw. unfold save_response. cbn [parts].
    by apply (save_parts_first_image ext _ ps p b). }
  destruct (run_task_stores g ext f d s c _ b Hc Hg Hf Hr Hout Hfile Hsave) as (_ & Hn1 & _).
  destruct (run_task_fields g ext f d s)
    as (l & cs & co & _ & Hi & Hk & _ & _ & _ & _ & _ & Hcwd & Hro & _).
  set (s1 := (run_task g ext f d s).2) in *.
  pose proof (output_dir_of_cwd g (disk s) (disk s1) Hcwd) as Ho.
  destruct (final_path_of g (disk s) f Hf) as [Hpath Hne].
  assert (Client ext (strip (api_entry s1)) = Ok c) as Hc1 by (by rewrite Hk).
  assert (generate_content ext c (request_of g d s1) = Ok {| parts := Some ps |}) as Hg1.
  { by rewrite (request_of_image g d s s1 Hi). }
  assert (nodes (disk s1) !! output_dir_of g (disk s) = Some Dir) as Hdir.
  { rewrite Hn1, lookup_insert_ne by (by rewrite <- Hpath). apply lookup_insert_eq. }
  assert (nodes (disk s1) !! (output_dir_of g (disk s) +:+ "/" +:+ f) = Some (File b))
    as Hfil by (rewrite Hn1; apply lookup_insert_eq).
  destruct (run_task_stores g ext f d s1 c _ b Hc1 Hg1 Hf) as (H1 & H2 & H3).
  - by rewrite Hro.
  - intros raw. rewrite Ho, Hdir. discriminate.
  - rewrite Ho, Hfil. discriminate.
  - by rewrite Ho.
  - split; [done |]. split; [| done].
    destruct (run_task_fields g ext f d s1)
      as (l' & cs' & co' & _ & _ & _ & _ & _ & _ & _ & _ & Hcwd' & Hro' & _).
    apply filesystem_eq; [done | | done].
    rewrite H2, Ho. rewrite (insert_id (nodes (disk s1)) _ Dir Hdir).
    by rewrite (insert_id (nodes (disk s1)) _ (File b) Hfil).
Qed.

(** An instance: the rain task of Incity run twice. *)
Lemma rerun_keeps_disk_witness :
  (run_task IncityGenerator (scripted (Ok {| parts := Some [bytes_part png] |}))
     "incity_rain_day.png" "Rainy weather"
     (run_task IncityGenerator (scripted (Ok {| parts := Some [bytes_part png] |}))
        "incity_rain_day.png" "Rainy weather" sample_state).2).1 = Ok tt
  ∧ disk (run_task IncityGenerator (scripted (Ok {| parts := Some [bytes_part png] |}))
            "incity_rain_day.png" "Rainy weather"
            (run_task IncityGenerator (scripted (Ok {| parts := Some [bytes_part png] |}))
               "incity_rain_day.png" "Rainy weather" sample_state).2).2
    = disk (run_task IncityGenerator (scripted (Ok {| parts := Some [bytes_part png] |}))
              "incity_rain_day.png" "Rainy weather" sample_state).2
  ∧ emitted (run_task IncityGenerator (scripted (Ok {| parts := Some [bytes_part png] |}))
               "incity_rain_day.png" "Rainy weather")
      (run_task IncityGenerator (scripted (Ok {| parts := Some [bytes_part png] |}))
         "incity_rain_day.png" "Rainy weather" sample_state).2
    = [progress_entry IncityGenerator "incity_rain_day.png";
       success_entry IncityGenerator "incity_rain_day.png"].
Proof.
  apply (rerun_keeps_disk IncityGenerator
           (scripted (Ok {| parts := Some [bytes_part png] |}))
           "incity_rain_day.png" "Rainy weather" sample_state tt
           [bytes_part png] (bytes_part png) png).
  - reflexivity.
  - reflexivity.
  - exists [], []. split; [done |]. split; [constructor | by intros _].
  - split; [by exists {| data := DataBytes png |} | intros b' Hb'; discriminate Hb'].
  - reflexivity.
  - reflexivity.
  - intros raw. vm_compute. discriminate.
  - vm_compute. discriminate.
Defined.

(** * The life of a panel *)

Lemma trigger_entry_point (g : program) (f d : string) : entry_point (trigger_of g f d).
Proof. destruct g; constructor. Qed.

Lemma batch_entry_point (c : M unit) : batch_command c → entry_point c.
Proof.
  intros [];
    [ exact incity_all_day | exact incity_all_easter_day | exact incity_all_easter_night
    | exact incity_all_night | exact incity_all_fullmoon | exact incity_all_everything ].
Qed.

Lemma batch_tasks_catalog :
  Forall (λ t, t ∈ Incity.catalog)
    (Incity.day_configs ++ Incity.easter_day_configs ++ Incity.easter_night_configs
     ++ Incity.night_configs ++ Incity.fullmoon_configs).
Proof. rewrite <- catalog_groups. apply Forall_forall. auto. Qed.

(** A grouped command of a ready panel starts tasks of the catalog and
    touches only the threads and the log. *)
Lemma batch_ready_cases (c : M unit) (s : state) :
  batch_command c → ready s →
  ∃ l lg, (c s).2 = with_threads (threads s ++ l) (with_log (log_box s ++ lg) s)
          ∧ Forall (λ t, t ∈ Incity.catalog) l.
Proof.
  pose proof batch_tasks_catalog as Hall.
  rewrite !Forall_app in Hall. destruct Hall as (H1 & H2 & H3 & H4 & H5).
  intros [] Hs.
  - rewrite (generate_all_day_ready s Hs). by eexists _, _.
  - rewrite (generate_all_easter_day_ready s Hs). by eexists _, _.
  - rewrite (generate_all_easter_night_ready s Hs). by eexists _, _.
  - rewrite (generate_all_night_ready s Hs). by eexists _, _.
  - rewrite (generate_all_fullmoon_ready s Hs). by eexists _, _.
  - exists Incity.catalog, (drop (length (log_box s))
                                 (log_box (Incity.generate_all_everything s).2)).
    split; [| apply Forall_forall; auto].
    rewrite (generate_all_everything_outcome s Hs).
    cbv [batch_outcome logged with_threads with_log
         snd reference_image_path pil_image api_entry log_box dialogs threads disk
         calls console].
    rewrite <- !app_assoc, drop_app_length, catalog_groups. reflexivity.
Qed.

(** Any button or grouped command: a dialog and nothing else, or threads
    for tasks [l] and log entries. *)
Lemma dispatch_cases (c : M unit) (l : list (string * string)) (s : state) :
  entry_point c →
  (ready s → ∃ lg, (c s).2 = with_threads (threads s ++ l) (with_log (log_box s ++ lg) s)) →
  (∃ x, known_dialog x ∧ (c s).2 = with_dialogs (dialogs s ++ [x]) s)
  ∨ (ready s ∧ ∃ lg, (c s).2 = with_threads (threads s ++ l) (with_log (log_box s ++ lg) s)).
Proof.
  intros Hc Hready.
  destruct (opt_truthy (reference_image_path s)) eqn:Hp.
  2: { left. exists missing_image_dialog. split; [by left |].
       by rewrite (entry_point_missing_image c s Hc Hp). }
  destruct (truthy (strip (api_entry s))) eqn:Hk.
  - right. split; [done |]. by apply Hready.
  - left. exists missing_key_dialog. split; [by right |].
    rewrite (entry_point_missing_key c s Hc); [done | |].
    + unfold image_missing. congruence.
    + by apply truthy_strip.
Qed.

Lemma advance_dispatch (g : program) (c : M unit) (l : list (string * string)) (s : state) :
  Forall (λ t, t ∈ catalog_of g) l →
  (∃ x, known_dialog x ∧ (c s).2 = with_dialogs (dialogs s ++ [x]) s)
  ∨ (ready s ∧ ∃ lg, (c s).2 = with_threads (threads s ++ l) (with_log (log_box s ++ lg) s)) →
  advance g s (c s).2.
Proof.
  intros Hl [(x & Hx & ->) | ([Hp Hk] & lg & ->)]; unfold advance, image_missing; simpl.
  - split; [done |]. split; [by left |].
    split; [exists []; by rewrite app_nil_r; repeat split; auto |].
    split; [exists [x]; split; [done | by apply Forall_cons_2] |].
    split; [exists []; by rewrite app_nil_r |]. by repeat split; auto.
  - split; [done |]. split; [by left |].
    split; [exists l; repeat split; auto; right; congruence |].
    split; [exists []; by rewrite app_nil_r |].
    split; [exists []; by rewrite app_nil_r |]. by repeat split; auto.
Qed.

Lemma advance_load_image (g : program) (ui : desktop) (s : state) :
  advance g s (load_image_of g ui s).2.
Proof.
  destruct (load_image_cases g ui s)
    as (m & [-> | [-> | [(p & Hp & ->) | (p & i & Hp & ->)]]]);
    unfold advance, image_missing; simpl; rewrite ?Hp;
    (split; [done |]);
    (split; [first [by left | by right] |]);
    (split; [exists []; by rewrite app_nil_r; repeat split; auto |]);
    (split; [exists []; by rewrite app_nil_r |]);
    (split; [exists []; by rewrite app_nil_r |]); by repeat split; auto.
Qed.

Lemma advance_thread (g : program) (ext : external) (t : string * string) (s : state) :
  t ∈ threads s → advance g s (run_task g ext t.1 t.2 s).2.
Proof.
  intros Ht.
  destruct (run_task_fields g ext t.1 t.2 s)
    as (l & cs & co & H1 & H2 & H3 & H4 & H5 & H6 & H7 & H8 & H9 & H10 & H11 & _ & H13).
  unfold advance, image_missing. rewrite H1, H2, H4, H5, H7, H9, H10.
  split; [done |]. split; [by left |].
  split; [exists []; by rewrite app_nil_r; repeat split; auto |].
  split; [exists []; by rewrite app_nil_r |].
  split.
  { exists cs. split; [done |].
    destruct H13 as [-> | ->]; [constructor |].
    apply Forall_cons_2; [| constructor]. exists t. split; [done |]. by destruct g. }
  repeat split; [done .. |].
  intros q. destruct (H11 q) as [? | [? | ?]]; [by left | by right; left |].
  right. right. by exists t.
Qed.

Lemma panel_step_advance (g : program) (s s' : state) :
  panel_step g s s' → advance g s s'.
Proof.
  intros [ui s0 | k s0 | t s0 Ht | c s0 -> Hc | ext t s0 Ht].
  - apply advance_load_image.
  - unfold advance, image_missing. simpl.
    split; [done |]. split; [by left |].
    split; [exists []; by rewrite app_nil_r; repeat split; auto |].
    split; [exists []; by rewrite app_nil_r |].
    split; [exists []; by rewrite app_nil_r |]. by repeat split; auto.
  - apply (advance_dispatch g _ [t]); [by repeat constructor |].
    apply dispatch_cases; [apply trigger_entry_point |].
    intros Hs. exists []. rewrite (trigger_ready g t.1 t.2 s0 Hs). simpl.
    rewrite app_nil_r. destruct t, s0. reflexivity.
  - destruct (opt_truthy (reference_image_path s0) && truthy (strip (api_entry s0)))
      eqn:Hr.
    + apply andb_true_iff in Hr. destruct (batch_ready_cases c s0 Hc) as (l & lg & He & Hl);
        [by destruct Hr |].
      apply (advance_dispatch IncityGenerator c l); [done |].
      right. split; [by destruct Hr |]. by exists lg.
    + apply (advance_dispatch IncityGenerator c []); [constructor |].
      apply dispatch_cases; [by apply batch_entry_point |].
      intros [Hp Hk]. by rewrite Hp, Hk in Hr.
  - by apply advance_thread.
Qed.

Lemma init_inv (g : program) (d0 : filesystem) : panel_inv g d0 (init_of g d0).
Proof.
  destruct g; unfold panel_inv; simpl;
    (split; [done |]); (split; [constructor |]); (split; [done |]);
    (split; [constructor |]); (split; [constructor |]); (split; [done |]);
    (split; [done |]); intros q; by left.
Qed.

Lemma advance_inv (g : program) (d0 : filesystem) (s s' : state) :
  panel_inv g d0 s → advance g s s' → panel_inv g d0 s'.
Proof.
  intros (I1 & I2 & I3 & I4 & I5 & I6 & I7 & I8)
         (A1 & A2 & (l & Hl & Al & Al') & (dl & Hdl & Adl) & (cs & Hcs & Acs) & A6 & A7 & A8).
  pose proof (output_dir_of_cwd g d0 (disk s) I6) as Ho.
  unfold panel_inv. rewrite Hl, Hdl, Hcs, A6, A7.
  split; [| split; [| split; [| split; [| split; [| split; [| split]]]]]]; try done.
  - intros Hi. destruct A2 as [A2 | A2]; [| done]. rewrite A2 in Hi. auto.
  - by apply Forall_app.
  - intros Hne. destruct Al' as [-> | ?]; [| done].
    rewrite app_nil_r in Hne. auto.
  - by apply Forall_app.
  - apply Forall_app. split; [done |].
    eapply Forall_impl; [exact Acs |]. intros rq (t & Ht & Hrq).
    exists t. split; [| done]. rewrite Forall_forall in I2. auto.
  - intros q. rewrite Ho in A8.
    destruct (A8 q) as [-> | [-> | (t & Ht & ->)]]; [apply I8 | by right; left |].
    right. right. exists t. split; [| done]. rewrite Forall_forall in I2. auto.
Qed.

Lemma reachable_inv (g : program) (d0 : filesystem) (s : state) :
  reachable g d0 s → panel_inv g d0 s.
Proof.
  induction 1 as [| s s' _ IH Hstep]; [apply init_inv |].
  eapply advance_inv; [exact IH | by apply panel_step_advance].
Qed.

Ltac session_reachable :=
  apply (reachable_step IncityGenerator sample_disk session_started session_done);
  [ apply (reachable_step IncityGenerator sample_disk
             (with_api_entry [65; 73; 122; 97]%N session_loaded) session_started);
    [ apply (reachable_step IncityGenerator sample_disk session_loaded);
      [ apply (reachable_step IncityGenerator sample_disk (init_of IncityGenerator sample_disk)
                 session_loaded);
        [ apply reachable_init
        | apply (step_load_image IncityGenerator
                   (picking "/home/lea/incity.png" (Ok pixel))) ]
      | apply step_type_key ]
    | apply (step_click IncityGenerator first_task);
      apply (bool_decide_unpack _); vm_compute; exact I ]
  | apply (step_thread IncityGenerator
             (scripted (Ok {| parts := Some [bytes_part png] |})) first_task);
    apply (bool_decide_unpack _); vm_compute; exact I ].

(** X16. In every state a panel can reach, a picture in memory comes with a
    picture path: whenever [pil_image] is set, the first check of the
    buttons passes.  (The converse fails after a file that did not decode.) *)
Theorem picture_comes_with_path (g : program) (d0 : filesystem) (s : state) :
  reachable g d0 s →
  pil_image s ≠ None →
  ¬ image_missing s.
Proof. intros Hs. by destruct (reachable_inv g d0 s Hs) as (I1 & _). Qed.

(** An instance: the session after its thread has run. *)
Lemma picture_comes_with_path_witness : ¬ image_missing session_done.
Proof.
  apply (picture_comes_with_path IncityGenerator sample_disk session_done).
  - session_reachable.
  - vm_compute. discriminate.
Defined.

(** X17. In every state a panel can reach, each thread that was started is for a
    (file name, prompt) pair of the catalog of the panel, no thread was
    started before a picture file had been chosen, and the only dialogs ever
    shown are the missing-picture and the missing-credential one. *)
Theorem threads_are_catalog_tasks (g : program) (d0 : filesystem) (s : state) :
  reachable g d0 s →
  Forall (λ t, t ∈ catalog_of g) (threads s)
  ∧ (threads s ≠ [] → ¬ image_missing s)
  ∧ Forall known_dialog (dialogs s).
Proof.
  intros Hs. destruct (reachable_inv g d0 s Hs) as (_ & I2 & I3 & I4 & _).
  by repeat split.
Qed.

(** An instance: the session after its thread has run. *)
Lemma threads_are_catalog_tasks_witness :
  Forall (λ t, t ∈ catalog_of IncityGenerator) (threads session_done)
  ∧ (threads session_done ≠ [] → ¬ image_missing session_done)
  ∧ Forall known_dialog (dialogs session_done).
Proof.
  apply (threads_are_catalog_tasks IncityGenerator sample_disk session_done).
  session_reachable.
Defined.

(** X18. In every state a panel can reach, each request that was handed to the
    adapter carries the prompt composed for a fragment of the catalog, and
    so includes every preservation clause of the program. *)
Theorem requests_are_catalog_prompts (g : program) (d0 : filesystem) (s : state) :
  reachable g d0 s →
  Forall (λ rq, (∃ t, t ∈ catalog_of g ∧ (contents rq).1 = base_prompt_of g t.2)
                ∧ Forall (λ c, includes c (contents rq).1) (preservation_of g))
         (calls s).
Proof.
  intros Hs. destruct (reachable_inv g d0 s Hs) as (_ & _ & _ & _ & I5 & _).
  eapply Forall_impl; [exact I5 |]. intros rq (t & Ht & Hrq).
  split; [by exists t |]. rewrite Hrq. apply base_prompt_includes.
Qed.

(** An instance: the session after its thread has run. *)
Lemma requests_are_catalog_prompts_witness :
  Forall (λ rq, (∃ t, t ∈ catalog_of IncityGenerator
                      ∧ (contents rq).1 = base_prompt_of IncityGenerator t.2)
                ∧ Forall (λ c, includes c (contents rq).1) (preservation_of IncityGenerator))
         (calls session_done).
Proof.
  apply (requests_are_catalog_prompts IncityGenerator sample_disk session_done).
  session_reachable.
Defined.

(** X19. In every state a panel can reach, the disk differs from the one the
    program was started on at most by the output directory and by files
    right under it that bear a file name of the catalog; every other path,
    and the working directory, are as they were. *)
Theorem writes_stay_in_output_dir (g : program) (d0 : filesystem) (s : state) :
  reachable g d0 s →
  cwd (disk s) = cwd d0
  ∧ ∀ q, nodes (disk s) !! q ≠ nodes d0 !! q →
         q = output_dir_of g d0
         ∨ ∃ t, t ∈ catalog_of g ∧ q = output_dir_of g d0 +:+ "/" +:+ t.1.
Proof.
  intros Hs. destruct (reachable_inv g d0 s Hs) as (_ & _ & _ & _ & _ & I6 & _ & I8).
  split; [done |]. intros q Hq.
  destruct (I8 q) as [? | [? | (t & Ht & ->)]]; [done | by left |].
  right. exists t. split; [done |].
  pose proof (catalog_paths_plain g d0) as Hall.
  rewrite Forall_forall in Hall. by apply Hall.
Qed.

(** An instance: the session after its thread has run. *)
Lemma writes_stay_in_output_dir_witness :
  cwd (disk session_done) = cwd sample_disk
  ∧ ∀ q, nodes (disk session_done) !! q ≠ nodes sample_disk !! q →
         q = output_dir_of IncityGenerator sample_disk
         ∨ ∃ t, t ∈ catalog_of IncityGenerator
                ∧ q = output_dir_of IncityGenerator sample_disk +:+ "/" +:+ t.1.
Proof.
  apply (writes_stay_in_output_dir IncityGenerator sample_disk session_done).
  session_reachable.
Defined.

(** * Start-up and a failed load, followed by a button *)

(** X20. On a panel as it starts, with its two start-up lines in the log, every
    button and grouped command shows the missing-picture dialog and starts
    nothing, whatever the working directory. *)
Theorem fresh_panel_asks_for_picture (g : program) (d0 : filesystem) (c : M unit) :
  entry_point c →
  length (log_box (init_of g d0)) = 2
  ∧ c (init_of g d0)
    = (Ok tt, with_dialogs [missing_image_dialog] (init_of g d0))
  ∧ threads (c (init_of g d0)).2 = [].
Proof.
  intros Hc. split; [by destruct g |].
  assert (image_missing (init_of g d0)) as Hm by (by destruct g).
  rewrite (entry_point_missing_image c _ Hc Hm). split; [| by destruct g].
  by destruct g.
Qed.

(** An instance: "generate everything" right after the start of Incity. *)
Lemma fresh_panel_asks_for_picture_witness :
  length (log_box (init_of IncityGenerator sample_disk)) = 2
  ∧ Incity.generate_all_everything (init_of IncityGenerator sample_disk)
    = (Ok tt, with_dialogs [missing_image_dialog] (init_of IncityGenerator sample_disk))
  ∧ threads (Incity.generate_all_everything (init_of IncityGenerator sample_disk)).2 = [].
Proof.
  apply (fresh_panel_asks_for_picture IncityGenerator sample_disk
           Incity.generate_all_everything).
  exact incity_all_everything.
Defined.

(** X21. The first check looks at the path, not at the picture.  On a panel
    without a picture and with a key typed, after a chosen file failed to
    decode, a button starts its thread all the same, and the request that
    the task then submits carries no picture. *)
Theorem button_after_failed_load (g : program) (ui : desktop) (ext : external)
    (f d : string) (s : state) (p e : string) :
  pil_image s = None →
  ¬ blank (api_entry s) →
  askopenfilename ui = Ok p →
  str_truthy p = true →
  image_open ui p = Raise e →
  threads (trigger_of g f d (load_image_of g ui s).2).2 = threads s ++ [(f, d)]
  ∧ dialogs (trigger_of g f d (load_image_of g ui s).2).2 = dialogs s
  ∧ Forall (λ rq, contents rq = (base_prompt_of g d, None))
           (submitted (run_task g ext f d) (trigger_of g f d (load_image_of g ui s).2).2).
Proof.
  intros Hi Hk Ha Hp Ho.
  rewrite (load_image_undecoded g ui s p e Ha Hp Ho). cbn [snd].
  set (s1 := logged _ _).
  assert (ready s1) as Hr.
  { apply not_blank_ready; [| done]. unfold image_missing. simpl. by rewrite Hp. }
  rewrite (trigger_ready g f d s1 Hr). split; [done |]. split; [done |].
  cbn [snd]. set (s2 := with_threads _ s1).
  destruct (run_task_submitted g ext f d s2) as [-> | ->]; [constructor |].
  apply Forall_cons_2; [| constructor].
  subst s2 s1. destruct g; simpl; unfold incity_request, lyon_request; simpl;
    by rewrite Hi.
Qed.

(** An instance: a file that is no picture is picked on a panel with a key,
    then the rain button is pressed and its task runs. *)
Lemma button_after_failed_load_witness :
  threads (trigger_of IncityGenerator "incity_rain_day.png" "Rainy weather"
             (load_image_of IncityGenerator
                (picking "/home/lea/notes.png" (Raise "cannot identify image file"))
                (with_api_entry [65; 73; 122; 97]%N fresh_state)).2).2
  = threads (with_api_entry [65; 73; 122; 97]%N fresh_state)
    ++ [("incity_rain_day.png", "Rainy weather")]
  ∧ dialogs (trigger_of IncityGenerator "incity_rain_day.png" "Rainy weather"
               (load_image_of IncityGenerator
                  (picking "/home/lea/notes.png" (Raise "cannot identify image file"))
                  (with_api_entry [65; 73; 122; 97]%N fresh_state)).2).2
    = dialogs (with_api_entry [65; 73; 122; 97]%N fresh_state)
  ∧ Forall (λ rq, contents rq = (base_prompt_of IncityGenerator "Rainy weather", None))
           (submitted (run_task IncityGenerator (scripted (Raise "400 INVALID_ARGUMENT"))
                         "incity_rain_day.png" "Rainy weather")
              (trigger_of IncityGenerator "incity_rain_day.png" "Rainy weather"
                 (load_image_of IncityGenerator
                    (picking "/home/lea/notes.png" (Raise "cannot identify image file"))
                    (with_api_entry [65; 73; 122; 97]%N fresh_state)).2).2).
Proof.
  apply (button_after_failed_load IncityGenerator
           (picking "/home/lea/notes.png" (Raise "cannot identify image file"))
           (scripted (Raise "400 INVALID_ARGUMENT"))
           "incity_rain_day.png" "Rainy weather"
           (with_api_entry [65; 73; 122; 97]%N fresh_state)
           "/home/lea/notes.png" "cannot identify image file").
  - reflexivity.
  - intros H. inversion H as [|? ? Hc _]. discriminate Hc.
  - reflexivity.
  - reflexivity.
  - reflexivity.
Defined.

(** * The two checks after a file that is no picture *)

(** C3, the failing run.  A key is typed on the Incity panel and a file
    that is no picture is chosen: [load_image] has set the path before the
    decoding raised, so no reference image is loaded, and the state is one
    the panel reaches.  There "generate everything" and the rain button show
    no dialog and start their threads, 29 and one, and the task of the rain
    button hands the adapter a request whose picture is [None].  The first
    button of the Lyon panel starts its thread as well. *)
Theorem dispatch_without_picture :
  reachable IncityGenerator sample_disk (undecoded IncityGenerator typed_key)
  ∧ pil_image (undecoded IncityGenerator typed_key) = None
  ∧ dialogs (Incity.generate_all_everything (undecoded IncityGenerator typed_key)).2 = []
  ∧ threads (Incity.generate_all_everything (undecoded IncityGenerator typed_key)).2
    = Incity.catalog
  ∧ dialogs (Incity.trigger_generation rain_task.1 rain_task.2
               (undecoded IncityGenerator typed_key)).2 = []
  ∧ threads (Incity.trigger_generation rain_task.1 rain_task.2
               (undecoded IncityGenerator typed_key)).2 = [rain_task]
  ∧ map contents
        (submitted (Incity.generate_task png_service rain_task.1 rain_task.2)
           (Incity.trigger_generation rain_task.1 rain_task.2
              (undecoded IncityGenerator typed_key)).2)
    = [(Incity.base_prompt rain_task.2, None)]
  ∧ pil_image (undecoded LyonGenerator typed_key) = None
  ∧ dialogs (Lyon.trigger_generation lyon_first_task.1 lyon_first_task.2
               (undecoded LyonGenerator typed_key)).2 = []
  ∧ threads (Lyon.trigger_generation lyon_first_task.1 lyon_first_task.2
               (undecoded LyonGenerator typed_key)).2 = [lyon_first_task].
Proof.
  split.
  { apply (reachable_step IncityGenerator sample_disk
             (with_api_entry typed_key (init_of IncityGenerator sample_disk))).
    - apply (reachable_step IncityGenerator sample_disk (init_of IncityGenerator sample_disk));
        [apply reachable_init | apply step_type_key].
    - apply (step_load_image IncityGenerator
               (picking "/home/lea/notes.png"
                  (Raise "cannot identify image file '/home/lea/notes.png'"))). }
  repeat split; by vm_compute.
Qed.

(** C8, the failing run.  Nothing is typed in the credential field and a
    file that is no picture is chosen: no reference image is loaded and the
    credential field is empty.  The rain button and "generate everything"
    of the Incity panel, and the first button of the Lyon panel, show the
    missing-credential dialog and not the missing-image one. *)
Theorem key_dialog_without_picture :
  pil_image (undecoded IncityGenerator []) = None
  ∧ api_entry (undecoded IncityGenerator []) = []
  ∧ Incity.trigger_generation rain_task.1 rain_task.2 (undecoded IncityGenerator [])
    = (Ok tt, with_dialogs [missing_key_dialog] (undecoded IncityGenerator []))
  ∧ Incity.generate_all_everything (undecoded IncityGenerator [])
    = (Ok tt, with_dialogs [missing_key_dialog] (undecoded IncityGenerator []))
  ∧ pil_image (undecoded LyonGenerator []) = None
  ∧ Lyon.trigger_generation lyon_first_task.1 lyon_first_task.2
      (undecoded LyonGenerator [])
    = (Ok tt, with_dialogs [missing_key_dialog] (undecoded LyonGenerator [])).
Proof. repeat split; by vm_compute. Qed.

(** * Two runs, one after the other *)



Section Coupled.
Context (ext : external) (path : string).








End Coupled.







Section RunCoupled.
Context (g : program) (ext : external).


End RunCoupled.







